(** * The FastAPI history client of the CopilotKit/LangGraph example

    A shallow embedding of [createFastAPIHistoryClient]
    (ui/src/lib/custom-history-client.ts, shipped in the same text as
    ui/src/app/api/copilotkit/route.ts): the three request/response
    operations [getHistory], [getState], [runs.list], and the asynchronous
    generator [joinStream] that decodes a server-sent-event stream.

    Text is a [string] of bytes (UTF-8).  The platform functions the client
    calls are either written out ([split], [pop], [startsWith], [slice],
    [trim], [encodeURIComponent], [Response.ok]) or, for [JSON.parse],
    [JSON.stringify], the numbers with the text that a template literal
    makes of them, and the backend behind [fetch], taken as variables of
    the section [Client]. *)

From Stdlib Require Import String Ascii List ZArith Lia Bool DecimalString.
Import ListNotations.
Open Scope string_scope.
Open Scope list_scope.

(** ** JavaScript values and completions *)

(** A JSON-shaped JavaScript value.  A number is kept as its literal. *)
#[local] Unset Elimination Schemes.
Inductive value : Type :=
| VNull
| VBool (b : bool)
| VNumber (literal : string)
| VString (s : string)
| VArray (items : list value)
| VObject (fields : list (string * value)).
#[local] Set Elimination Schemes.

(** A thrown value: [new Error(m)] is [Error_ m]. *)
Record exn : Type := mkExn { exn_name : string; exn_message : string }.

Definition Error_ (m : string) : exn := mkExn "Error" m.

(** How a call ends: with a value or with a thrown exception. *)
Inductive completion (A : Type) : Type :=
| Normal (a : A)
| Throw (e : exn).
Arguments Normal {A} a.
Arguments Throw {A} e.

(** ** String primitives *)

Definition LF : ascii := Ascii.ascii_of_nat 10.
Definition newline : string := String LF EmptyString.

(** [s.startsWith(p)] *)
Fixpoint startsWith (p s : string) : bool :=
  match p with
  | EmptyString => true
  | String a p' =>
      match s with
      | EmptyString => false
      | String b s' => Ascii.eqb a b && startsWith p' s'
      end
  end.

(** [s.slice(n)] for a non-negative [n]. *)
Fixpoint slice (n : nat) (s : string) : string :=
  match n, s with
  | O, _ => s
  | S n', String _ r => slice n' r
  | S _, EmptyString => EmptyString
  end.

(** A string is truthy when it is not empty. *)
Definition truthy (s : string) : bool := negb (s =? "").

(** [a || b] on strings. *)
Definition or_else (a b : string) : string := if truthy a then a else b.

(** [s.split("\n")]: never empty, one more piece than there are newlines. *)
Fixpoint split (s : string) : list string :=
  match s with
  | EmptyString => [EmptyString]
  | String c r =>
      if Ascii.eqb c LF then EmptyString :: split r
      else match split r with
           | h :: t => String c h :: t
           | [] => [String c EmptyString]
           end
  end.

(** [lines.pop()]: the removed last element ([None] is [undefined]) and the
    array that is left. *)
Definition pop (lines : list string) : option string * list string :=
  match lines with
  | [] => (None, [])
  | _ :: _ => (Some (last lines EmptyString), removelast lines)
  end.

(** [x || ""] where [x] may be [undefined]. *)
Definition or_empty (x : option string) : string :=
  match x with
  | Some s => or_else s ""
  | None => ""
  end.

(** White space as [String.prototype.trim] sees it.  One-byte white space:
    TAB, LF, VT, FF, CR and SPACE. *)
Definition is_space1 (c : ascii) : bool :=
  let n := nat_of_ascii c in
  ((9 <=? n) && (n <=? 13))%nat || (n =? 32)%nat.

(** U+00A0, as the two bytes C2 A0. *)
Definition is_space2 (c1 c2 : ascii) : bool :=
  ((nat_of_ascii c1 =? 194) && (nat_of_ascii c2 =? 160))%nat.

(** The three-byte white space: U+1680, U+2000..U+200A, U+2028, U+2029,
    U+202F, U+205F, U+3000 and U+FEFF. *)
Definition is_space3 (c1 c2 c3 : ascii) : bool :=
  let a := nat_of_ascii c1 in
  let b := nat_of_ascii c2 in
  let c := nat_of_ascii c3 in
  ((a =? 225) && (b =? 154) && (c =? 128))%nat
  || ((a =? 226) && (b =? 128)
      && (((128 <=? c) && (c <=? 138)) || (c =? 168) || (c =? 169)
          || (c =? 175)))%nat
  || ((a =? 226) && (b =? 129) && (c =? 159))%nat
  || ((a =? 227) && (b =? 128) && (c =? 128))%nat
  || ((a =? 239) && (b =? 187) && (c =? 191))%nat.

(** Strip white space at the front.  [fwd] tells whether the bytes of a
    character come in reading order or reversed (used for the back). *)
Fixpoint strip (fwd : bool) (s : string) : string :=
  match s with
  | EmptyString => EmptyString
  | String c1 r1 =>
      if is_space1 c1 then strip fwd r1
      else
        match r1 with
        | EmptyString => s
        | String c2 r2 =>
            if (if fwd then is_space2 c1 c2 else is_space2 c2 c1)
            then strip fwd r2
            else
              match r2 with
              | EmptyString => s
              | String c3 r3 =>
                  if (if fwd then is_space3 c1 c2 c3 else is_space3 c3 c2 c1)
                  then strip fwd r3
                  else s
              end
        end
  end.

Fixpoint rev_string (acc s : string) : string :=
  match s with
  | EmptyString => acc
  | String c r => rev_string (String c acc) r
  end.

(** [s.trim()] *)
Definition trim (s : string) : string :=
  rev_string "" (strip false (rev_string "" (strip true s))).

(** [encodeURIComponent]: every byte but the unreserved marks, letters and
    digits becomes [%XX] in upper-case hexadecimal. *)
Definition unreserved (c : ascii) : bool :=
  let n := nat_of_ascii c in
  (((65 <=? n) && (n <=? 90)) || ((97 <=? n) && (n <=? 122))
   || ((48 <=? n) && (n <=? 57))
   || (n =? 45) || (n =? 95) || (n =? 46) || (n =? 33) || (n =? 126)
   || (n =? 42) || (n =? 39) || (n =? 40) || (n =? 41))%nat.

Definition hex_digit (n : nat) : ascii :=
  if (n <? 10)%nat then ascii_of_nat (48 + n) else ascii_of_nat (55 + n).

Definition percent (c : ascii) : string :=
  let n := nat_of_ascii c in
  String "%" (String (hex_digit (n / 16)) (String (hex_digit (n mod 16)) "")).

Fixpoint encodeURIComponent (s : string) : string :=
  match s with
  | EmptyString => EmptyString
  | String c r =>
      if unreserved c then String c (encodeURIComponent r)
      else percent c ++ encodeURIComponent r
  end.

(** Every character of the text passes the test. *)
Fixpoint string_forall (p : ascii -> bool) (s : string) : bool :=
  match s with
  | EmptyString => true
  | String c r => p c && string_forall p r
  end.

(** The characters an encoded component is made of: none of them ends a
    path segment or starts a query. *)
Definition segment_char (c : ascii) : bool :=
  unreserved c || Ascii.eqb c "%".

(** JavaScript numbers, for running the client.  The client is stated for
    the numbers of the platform and the text that [`${x}`] makes of each
    (variables of the section [Client]); the safe integers, of magnitude
    below 2^53, are numbers every one of which is written with all its
    digits. *)
Record safe_integer : Type := mkSafe {
  int_value : Z;
  int_safe : (Z.abs int_value <? 2 ^ 53)%Z = true
}.

Definition safe_integer_toString (n : safe_integer) : string :=
  NilZero.string_of_int (Z.to_int (int_value n)).

Definition safe_100 : safe_integer := mkSafe 100 eq_refl.

(** [baseUrl.replace(/\/$/, "")]: one trailing slash is removed. *)
Fixpoint replace_trailing_slash (s : string) : string :=
  match s with
  | EmptyString => EmptyString
  | String c r =>
      match r with
      | EmptyString => if Ascii.eqb c "/" then EmptyString else s
      | String _ _ => String c (replace_trailing_slash r)
      end
  end.

(** ** HTTP: requests, responses, the world *)

Record request : Type := mkRequest {
  req_method : string;
  req_url : string;
  req_headers : list (string * string);
  req_body : option string
}.

(** [fetch(u)] with no init object. *)
Definition GET (u : string) : request := mkRequest "GET" u [] None.

(** What [reader.read()] resolves to while the stream is open: a chunk,
    given by the text that [decoder.decode(value, {stream: true})] makes of
    it, or a rejection.  The end of the list is [{done: true}]. *)
Inductive read_result : Type :=
| ReadValue (text : string)
| ReadRejects (e : exn).

Record response : Type := mkResponse {
  status : Z;
  statusText : string;
  body : option (list read_result)
}.

(** [response.ok]: the status is in the range 200..299. *)
Definition ok (r : response) : bool :=
  ((200 <=? status r) && (status r <=? 299))%Z.

(** The observable effects: the requests sent, and how often the body
    reader was obtained and released. *)
Record world : Type := mkWorld {
  requests : list request;
  getReader_calls : nat;
  releaseLock_calls : nat
}.

Definition sent (rq : request) (w : world) : world :=
  mkWorld (requests w ++ [rq]) (getReader_calls w) (releaseLock_calls w).

Definition getReader (w : world) : world :=
  mkWorld (requests w) (S (getReader_calls w)) (releaseLock_calls w).

Definition releaseLock (w : world) : world :=
  mkWorld (requests w) (getReader_calls w) (S (releaseLock_calls w)).

(** The whole text of a body, or the rejection that interrupts it. *)
Fixpoint body_text (rs : list read_result) : completion string :=
  match rs with
  | [] => Normal ""
  | ReadValue t :: rs' =>
      match body_text rs' with
      | Normal u => Normal (t ++ u)%string
      | Throw e => Throw e
      end
  | ReadRejects e :: _ => Throw e
  end.

(** ** Data of the client *)

(** [HistoryStreamChunk] *)
Record chunk : Type := mkChunk { event : string; data : value }.

(** [options?: { limit?: number }], over the type of the numbers. *)
Record history_options (number : Type) : Type :=
  mkHistoryOptions { limit : option number }.
Arguments mkHistoryOptions {number} limit.
Arguments limit {number} h.

(** [options?: { streamMode?: string[] }] *)
Record join_options : Type := mkJoinOptions { streamMode : option (list string) }.

(** The state returned for a thread the backend does not know. *)
Definition empty_ThreadState : value :=
  VObject [("values", VObject [("messages", VArray [])]);
           ("next", VArray []);
           ("tasks", VArray [])].

(** [x ?? d] *)
Definition nullish {A : Type} (x : option A) (d : A) : A :=
  match x with
  | Some a => a
  | None => d
  end.

(** ** The client *)

(** The state of a [joinStream] generator that is suspended at its [yield]:
    the reads still to come, the decode buffer, the lines the [for] loop
    has not visited yet, and the two accumulators. *)
Record loop_state : Type := mkLoop {
  reader : list read_result;
  buffer : string;
  lines : list string;
  currentEvent : string;
  currentData : string
}.

(** An asynchronous generator object made by [joinStream(...)]. *)
Inductive generator : Type :=
| SuspendedStart (threadId runId : string) (options : option join_options)
| SuspendedYield (s : loop_state)
| Completed.

(** What a request to the generator settles with. *)
Inductive iter_result : Type :=
| Yielded (c : chunk)
| Finished
| Raised (e : exn).

(** How the [for] loop over the lines of one read leaves off: at a [yield],
    with the lines not visited yet and the accumulators, or at its end. *)
Inductive for_result : Type :=
| ForYield (c : chunk) (rest : list string) (ev dt : string)
| ForEnd.

(** How the consumption of a whole stream ends. *)
Inductive ending : Type :=
| EndNormal
| EndThrow (e : exn).

(** The two kinds of line the decoder reads something from. *)
Definition event_line (v : string) : string := "event: " ++ v.
Definition data_line (p : string) : string := "data: " ++ p.

(** The requests a consumer can make to a generator. *)
Inductive op : Type :=
| Next
| Return
| ThrowIn (e : exn).

(** ** Instances of the platform functions, for running the client

    The development is stated for any [JSON.parse]; to run it on concrete
    streams, [JSON_parse_atoms] reads the JSON texts [null], [true],
    [false], [{}], [[]] and unsigned decimal integers, with no white space
    around them, and throws on every other text. *)

Fixpoint all_digits (s : string) : bool :=
  match s with
  | EmptyString => true
  | String c r =>
      ((48 <=? nat_of_ascii c) && (nat_of_ascii c <=? 57))%nat && all_digits r
  end.

Definition is_integer_literal (s : string) : bool :=
  match s with
  | EmptyString => false
  | String c r =>
      all_digits s && ((s =? "0") || negb (Ascii.eqb c "0"))
  end.

Definition JSON_parse_atoms (s : string) : completion value :=
  if s =? "null" then Normal VNull
  else if s =? "true" then Normal (VBool true)
  else if s =? "false" then Normal (VBool false)
  else if s =? "{}" then Normal (VObject [])
  else if s =? "[]" then Normal (VArray [])
  else if is_integer_literal s then Normal (VNumber s)
  else Throw (mkExn "SyntaxError" "Unexpected token").

Definition dquote : string := String (ascii_of_nat 34) EmptyString.

(** [JSON.stringify] for values whose strings need no escaping. *)
Fixpoint JSON_stringify_plain (v : value) : string :=
  let quote s := (dquote ++ s ++ dquote)%string in
  match v with
  | VNull => "null"
  | VBool b => if b then "true" else "false"
  | VNumber l => l
  | VString s => quote s
  | VArray items =>
      ("[" ++ String.concat "," (map JSON_stringify_plain items) ++ "]")%string
  | VObject fields =>
      ("{" ++ String.concat ","
                (map (fun kv : string * value =>
                        quote (fst kv) ++ ":" ++ JSON_stringify_plain (snd kv))
                     fields) ++ "}")%string
  end.

(** A backend that answers every request with status 200 and the given
    body. *)
Definition backend_streaming (rd : list read_result)
    : request -> completion response :=
  fun _ => Normal (mkResponse 200 "OK" (Some rd)).

(** A backend that answers every request with the given status and no
    body. *)
Definition backend_status (st : Z) (text : string)
    : request -> completion response :=
  fun _ => Normal (mkResponse st text None).

Definition world0 : world := mkWorld [] 0 0.

Section Client.

(** [createFastAPIHistoryClient(baseUrl)] *)
Variable baseUrl : string.
(** The server behind [fetch]: the response to a request, or a rejection. *)
Variable backend : request -> completion response.
Variable JSON_parse : string -> completion value.
Variable JSON_stringify : value -> string.
(** The numbers of JavaScript, the text that [`${x}`] makes of a number,
    and the number that the literal [100] denotes. *)
Variable number : Type.
Variable Number_toString : number -> string.
Variable number_100 : number.
Hypothesis Number_toString_100 : Number_toString number_100 = "100".

Definition url : string := replace_trailing_slash baseUrl.

Definition fetch (rq : request) (w : world) : completion response * world :=
  (backend rq, sent rq w).

(** [response.json()] *)
Definition Response_json (r : response) : completion value :=
  match body r with
  | None => JSON_parse ""
  | Some rs =>
      match body_text rs with
      | Normal t => JSON_parse t
      | Throw e => Throw e
      end
  end.

Definition getHistory_request (threadId : string)
    (options : option (history_options number)) : request :=
  let limit_ :=
    nullish (match options with Some o => limit o | None => None end)
            number_100 in
  GET (url ++ "/threads/" ++ encodeURIComponent threadId
           ++ "/history?limit=" ++ Number_toString limit_).

Definition getHistory (threadId : string)
    (options : option (history_options number))
    (w : world) : completion value * world :=
  let '(res, w1) := fetch (getHistory_request threadId options) w in
  match res with
  | Throw e => (Throw e, w1)
  | Normal response =>
      if negb (ok response)
      then (Throw (Error_ ("Failed to fetch history: " ++ statusText response)), w1)
      else (Response_json response, w1)
  end.

Definition getState_request (threadId : string) : request :=
  GET (url ++ "/threads/" ++ encodeURIComponent threadId ++ "/state").

Definition getState (threadId : string) (w : world)
    : completion value * world :=
  let '(res, w1) := fetch (getState_request threadId) w in
  match res with
  | Throw e => (Throw e, w1)
  | Normal response =>
      if negb (ok response)
      then
        if (status response =? 404)%Z
        then (Normal empty_ThreadState, w1)
        else (Throw (Error_ ("Failed to fetch state: " ++ statusText response)), w1)
      else (Response_json response, w1)
  end.

Definition list_request (threadId : string) : request :=
  GET (url ++ "/runs?thread_id=" ++ encodeURIComponent threadId).

(** [runs.list] *)
Definition list_ (threadId : string) (w : world)
    : completion value * world :=
  let '(res, w1) := fetch (list_request threadId) w in
  match res with
  | Throw e => (Throw e, w1)
  | Normal response =>
      if negb (ok response)
      then (Throw (Error_ ("Failed to list runs: " ++ statusText response)), w1)
      else (Response_json response, w1)
  end.

(** *** joinStream *)

Definition joinStream_request (threadId runId : string)
    (options : option join_options) : request :=
  let modes :=
    nullish (match options with Some o => streamMode o | None => None end)
            ["events"; "values"; "updates"; "custom"] in
  mkRequest "POST"
    (url ++ "/runs/" ++ encodeURIComponent runId
         ++ "/join?thread_id=" ++ encodeURIComponent threadId)
    [("Accept", "text/event-stream"); ("Content-Type", "application/json")]
    (Some (JSON_stringify (VObject [("streamMode", VArray (map VString modes))]))).

(** The [for (const line of lines)] loop, run up to its next [yield]. *)
Fixpoint for_of (ls : list string) (ev dt : string) : for_result :=
  match ls with
  | [] => ForEnd
  | line :: rest =>
      if startsWith "event: " line then for_of rest (trim (slice 7 line)) dt
      else if startsWith "data: " line then for_of rest ev (slice 6 line)
      else if (line =? "") && truthy dt then
        match JSON_parse dt with
        | Normal d => ForYield (mkChunk (or_else ev "message") d) rest ev dt
        | Throw _ => for_of rest "" ""
        end
      else for_of rest ev dt
  end.

(** The [while (true)] loop inside [try ... finally], run up to its next
    [yield] or to the end of the generator; the [finally] block releases
    the reader on the way out. *)
Fixpoint while_true (rd : list read_result) (buf : string) (w : world)
    : iter_result * generator * world :=
  match rd with
  | [] => (Finished, Completed, releaseLock w)
  | ReadRejects e :: _ => (Raised e, Completed, releaseLock w)
  | ReadValue text :: rd' =>
      let buf1 := (buf ++ text)%string in
      let '(popped, ls) := pop (split buf1) in
      let buf2 := or_empty popped in
      match for_of ls "" "" with
      | ForYield c rest ev dt =>
          (Yielded c, SuspendedYield (mkLoop rd' buf2 rest ev dt), w)
      | ForEnd => while_true rd' buf2 w
      end
  end.

(** Execution goes on after the [yield]: the accumulators are reset and
    the [for] loop visits the lines that are left. *)
Definition resume (s : loop_state) (w : world)
    : iter_result * generator * world :=
  match for_of (lines s) "" "" with
  | ForYield c rest ev dt =>
      (Yielded c, SuspendedYield (mkLoop (reader s) (buffer s) rest ev dt), w)
  | ForEnd => while_true (reader s) (buffer s) w
  end.

(** The body of [joinStream] from its first statement. *)
Definition start (threadId runId : string) (options : option join_options)
    (w : world) : iter_result * generator * world :=
  let '(res, w1) := fetch (joinStream_request threadId runId options) w in
  match res with
  | Throw e => (Raised e, Completed, w1)
  | Normal response =>
      if negb (ok response)
      then (Raised (Error_ ("Failed to join stream: " ++ statusText response)),
            Completed, w1)
      else
        match body response with
        | None => (Finished, Completed, w1)
        | Some rd => while_true rd "" (getReader w1)
        end
  end.

(** [gen.next()] *)
Definition gen_next (g : generator) (w : world)
    : iter_result * generator * world :=
  match g with
  | SuspendedStart threadId runId options => start threadId runId options w
  | SuspendedYield s => resume s w
  | Completed => (Finished, Completed, w)
  end.

(** [gen.return()]: at the [yield] the [finally] block runs. *)
Definition gen_return (g : generator) (w : world)
    : iter_result * generator * world :=
  match g with
  | SuspendedStart _ _ _ => (Finished, Completed, w)
  | SuspendedYield _ => (Finished, Completed, releaseLock w)
  | Completed => (Finished, Completed, w)
  end.

(** [gen.throw(e)]: the [yield] sits inside the inner [try] whose [catch]
    swallows what is thrown there, so execution goes on as after [next]. *)
Definition gen_throw (e : exn) (g : generator) (w : world)
    : iter_result * generator * world :=
  match g with
  | SuspendedStart _ _ _ => (Raised e, Completed, w)
  | SuspendedYield s => resume s w
  | Completed => (Raised e, Completed, w)
  end.

(** [for await (const c of gen)] run to the end: the chunks delivered, how
    the loop ends, and the world afterwards. *)
Inductive consume : generator -> world -> list chunk -> ending -> world -> Prop :=
| consume_yielded g w c g' w' cs e w'' :
    gen_next g w = (Yielded c, g', w') ->
    consume g' w' cs e w'' ->
    consume g w (c :: cs) e w''
| consume_finished g w g' w' :
    gen_next g w = (Finished, g', w') ->
    consume g w [] EndNormal w'
| consume_raised g w x g' w' :
    gen_next g w = (Raised x, g', w') ->
    consume g w [] (EndThrow x) w'.

(** *** The chunks of a stream, in one piece *)

(** All the chunks the [for] loop yields over the lines of one read. *)
Fixpoint for_chunks (ls : list string) (ev dt : string) : list chunk :=
  match ls with
  | [] => []
  | line :: rest =>
      if startsWith "event: " line then for_chunks rest (trim (slice 7 line)) dt
      else if startsWith "data: " line then for_chunks rest ev (slice 6 line)
      else if (line =? "") && truthy dt then
        match JSON_parse dt with
        | Normal d => mkChunk (or_else ev "message") d :: for_chunks rest "" ""
        | Throw _ => for_chunks rest "" ""
        end
      else for_chunks rest ev dt
  end.

(** All the chunks the [while] loop yields, and how it ends. *)
Fixpoint while_chunks (rd : list read_result) (buf : string)
    : list chunk * ending :=
  match rd with
  | [] => ([], EndNormal)
  | ReadRejects e :: _ => ([], EndThrow e)
  | ReadValue text :: rd' =>
      let buf1 := (buf ++ text)%string in
      let '(popped, ls) := pop (split buf1) in
      let '(cs, e) := while_chunks rd' (or_empty popped) in
      (for_chunks ls "" "" ++ cs, e)
  end.

(** All the chunks of a [joinStream] call whose generator is consumed to
    its end, and how the consumption ends. *)
Definition joinStream_chunks (threadId runId : string)
    (options : option join_options) : list chunk * ending :=
  match backend (joinStream_request threadId runId options) with
  | Throw e => ([], EndThrow e)
  | Normal response =>
      if negb (ok response)
      then ([], EndThrow (Error_ ("Failed to join stream: " ++ statusText response)))
      else
        match body response with
        | None => ([], EndNormal)
        | Some rd => while_chunks rd ""
        end
  end.

(** The world after such a call: the request was sent, and when there is a
    body its reader was obtained and released. *)
Definition joinStream_world (threadId runId : string)
    (options : option join_options) (w : world) : world :=
  let w1 := sent (joinStream_request threadId runId options) w in
  match backend (joinStream_request threadId runId options) with
  | Throw _ => w1
  | Normal response =>
      if negb (ok response) then w1
      else
        match body response with
        | None => w1
        | Some _ => releaseLock (getReader w1)
        end
  end.

(** What is left of a consumption after one request has settled. *)
Definition finish (st : iter_result * generator * world)
    (cs : list chunk) (e : ending) (w'' : world) : Prop :=
  match st with
  | (Yielded c, g', w') => exists cs', cs = c :: cs' /\ consume g' w' cs' e w''
  | (Finished, _, w') => cs = [] /\ e = EndNormal /\ w'' = w'
  | (Raised x, _, w') => cs = [] /\ e = EndThrow x /\ w'' = w'
  end.

(** *** Consumers *)

Definition apply_op (o : op) (g : generator) (w : world)
    : iter_result * generator * world :=
  match o with
  | Next => gen_next g w
  | Return => gen_return g w
  | ThrowIn e => gen_throw e g w
  end.

(** A consumer's requests, made one after the other. *)
Fixpoint run_ops (ops : list op) (g : generator) (w : world)
    : generator * world :=
  match ops with
  | [] => (g, w)
  | o :: ops' =>
      let '(_, g', w') := apply_op o g w in
      run_ops ops' g' w'
  end.

(** The reader is not obtained before the generator starts, is held and not
    released while the generator waits at its [yield], and once the
    generator has completed it was released as often as it was obtained,
    which is at most once. *)
Definition reader_discipline (g : generator) (w : world) : Prop :=
  match g with
  | SuspendedStart _ _ _ => getReader_calls w = 0 /\ releaseLock_calls w = 0
  | SuspendedYield _ => getReader_calls w = 1 /\ releaseLock_calls w = 0
  | Completed =>
      releaseLock_calls w = getReader_calls w /\ getReader_calls w <= 1
  end.

(** *** Frames, as lines *)

(** The accumulators after lines none of which ends a frame. *)
Definition last_event (ls : list string) (ev : string) : string :=
  fold_left
    (fun e line => if startsWith "event: " line then trim (slice 7 line) else e)
    ls ev.

Definition last_data (ls : list string) (dt : string) : string :=
  fold_left
    (fun d line => if startsWith "data: " line then slice 6 line else d)
    ls dt.

(** How the [for] loop goes on at the blank line that follows a frame whose
    accumulators are [ev] and [dt]. *)
Definition at_blank (ev dt : string) (rest : list string) : for_result :=
  if truthy dt then
    match JSON_parse dt with
    | Normal d => ForYield (mkChunk (or_else ev "message") d) rest ev dt
    | Throw _ => for_of rest "" ""
    end
  else for_of rest ev dt.

(** *** Streams, as texts *)

(** The text of reads, one after the other. *)
Definition text_of (rs : list string) : string := fold_right append "" rs.

(** The decode buffer after the reads [rs], started from [buf]. *)
Definition buffer_after (buf : string) (rs : list string) : string :=
  fold_left (fun b text => last (split (b ++ text)) "") rs buf.

(** No line is open at the end of the text: it is empty or ends with a
    newline. *)
Definition line_closed (s : string) : Prop :=
  s = "" \/ exists s', s = (s' ++ newline)%string.

(** *** Frames, as the server writes them *)

(** A frame on the wire: an optional [event:] line, a [data:] line and the
    blank line that ends it. *)
Record frame : Type := mkFrame {
  frame_event : option string;
  frame_data : string
}.

Definition frame_lines (f : frame) : list string :=
  match frame_event f with
  | Some v => [event_line v]
  | None => []
  end ++ [data_line (frame_data f); ""].

(** Lines, each closed by a newline. *)
Definition unlines (ls : list string) : string :=
  fold_right (fun line acc => line ++ newline ++ acc)%string "" ls.

Definition frames_text (fs : list frame) : string :=
  unlines (concat (map frame_lines fs)).

Definition no_LF (s : string) : bool :=
  string_forall (fun c => negb (Ascii.eqb c LF)) s.

(** A frame that can be written on lines of its own. *)
Definition on_lines (f : frame) : Prop :=
  no_LF (frame_data f) = true
  /\ match frame_event f with
     | Some v => no_LF v = true
     | None => True
     end.

(** What a frame's payload contributes when it is read alone: its parsed
    value, or nothing when it is empty or does not parse. *)
Definition parsed_data (f : frame) : list value :=
  if truthy (frame_data f) then
    match JSON_parse (frame_data f) with
    | Normal d => [d]
    | Throw _ => []
    end
  else [].

(** *** More of the decode loop *)

(** The two accumulators when the [for] loop has visited all the lines of a
    read (they are dropped there: the next read declares them anew). *)
Fixpoint for_acc (ls : list string) (ev dt : string) : string * string :=
  match ls with
  | [] => (ev, dt)
  | line :: rest =>
      if startsWith "event: " line then for_acc rest (trim (slice 7 line)) dt
      else if startsWith "data: " line then for_acc rest ev (slice 6 line)
      else if (line =? "") && truthy dt then for_acc rest "" ""
      else for_acc rest ev dt
  end.

(** A line the loop passes over: not blank, and neither an [event: ] nor a
    [data: ] line. *)
Definition is_ignored (line : string) : bool :=
  negb (startsWith "event: " line) && negb (startsWith "data: " line)
  && negb (line =? "").

(** What a frame gives when it is decoded alone. *)
Definition frame_chunk (f : frame) : list chunk :=
  match JSON_parse (frame_data f) with
  | Normal d =>
      [mkChunk (or_else match frame_event f with
                        | Some v => trim v
                        | None => ""
                        end "message") d]
  | Throw _ => []
  end.

Definition CR : ascii := Ascii.ascii_of_nat 13.

(** Lines, each closed by a carriage return and a newline. *)
Definition unlines_crlf (ls : list string) : string :=
  fold_right (fun line acc => line ++ String CR newline ++ acc)%string "" ls.

(** The value of a hexadecimal digit, and the byte a percent escape
    stands for. *)
Definition hex_value (c : ascii) : nat :=
  let n := nat_of_ascii c in
  if (n <? 58)%nat then n - 48 else n - 55.

Definition unpercent (s : string) : ascii :=
  match s with
  | String _ (String h (String l _)) =>
      ascii_of_nat (16 * hex_value h + hex_value l)
  | _ => Ascii.zero
  end.

(** When reading a response as JSON fails with [e]: it has no body and
    the empty text does not parse, or all its reads resolve and their
    whole text does not parse, or one of its reads rejects. *)
Definition json_rejects (r : response) (e : exn) : Prop :=
  match body r with
  | None => JSON_parse "" = Throw e
  | Some rd =>
      (exists texts,
          rd = map ReadValue texts /\ JSON_parse (text_of texts) = Throw e)
      \/ (exists texts more, rd = map ReadValue texts ++ ReadRejects e :: more)
  end.

(** The lines the [for] loop is given, read after read: what is left of
    each split when the open line has been popped. *)
Fixpoint lines_seen (buf : string) (rs : list string) : list string :=
  match rs with
  | [] => []
  | text :: rs' =>
      removelast (split (buf ++ text))
        ++ lines_seen (last (split (buf ++ text)) "") rs'
  end.

(** ** Lemmas on the string primitives *)

Lemma split_nonempty (s : string) : split s <> [].
Proof.
  destruct s as [|c r]; simpl; [discriminate|].
  destruct (Ascii.eqb c LF); [discriminate|].
  destruct (split r); discriminate.
Qed.

Lemma or_else_empty (s : string) : or_else s "" = s.
Proof.
  unfold or_else, truthy. destruct (String.eqb_spec s ""); simpl; congruence.
Qed.

(** [pop] after [split] always finds a last piece: the line still open. *)
Lemma pop_split (s : string) :
  pop (split s) = (Some (last (split s) ""), removelast (split s)).
Proof.
  unfold pop. pose proof (split_nonempty s) as H.
  destruct (split s); [contradiction|reflexivity].
Qed.

Lemma removelast_cons {A : Type} (x : A) (l : list A) :
  l <> [] -> removelast (x :: l) = x :: removelast l.
Proof. destruct l; [contradiction|reflexivity]. Qed.

Lemma last_cons {A : Type} (x d : A) (l : list A) :
  l <> [] -> last (x :: l) d = last l d.
Proof. destruct l; [contradiction|reflexivity]. Qed.

Lemma removelast_last_eq {A : Type} (d : A) (l1 l2 : list A) :
  l1 <> [] -> l2 <> [] ->
  removelast l1 = removelast l2 -> last l1 d = last l2 d -> l1 = l2.
Proof.
  intros H1 H2 Hr Hl.
  rewrite (app_removelast_last d H1), (app_removelast_last d H2).
  congruence.
Qed.

Lemma split_cons_LF (r : string) : split (String LF r) = "" :: split r.
Proof. reflexivity. Qed.

Lemma split_cons_other (c : ascii) (r : string) :
  Ascii.eqb c LF = false ->
  split (String c r) = String c (hd "" (split r)) :: tl (split r).
Proof.
  intros Ec. pose proof (split_nonempty r) as Hr.
  cbn [split]. rewrite Ec.
  destruct (split r); [contradiction|reflexivity].
Qed.

(** The complete lines of a text that arrives in two pieces: those of the
    first piece, then those of the open line followed by the second
    piece; and the line left open is the same. *)
Lemma split_append (x y : string) :
  removelast (split (x ++ y))
  = removelast (split x) ++ removelast (split (last (split x) "" ++ y))
  /\ last (split (x ++ y)) "" = last (split (last (split x) "" ++ y)) "".
Proof.
  induction x as [|c x IH].
  - split; reflexivity.
  - change (String c x ++ y)%string with (String c (x ++ y)).
    destruct (Ascii.eqb c LF) eqn:Ec.
    + apply Ascii.eqb_eq in Ec; subst c.
      rewrite !split_cons_LF.
      rewrite !removelast_cons, !last_cons by apply split_nonempty.
      destruct IH as [-> ->]. split; reflexivity.
    + rewrite !(split_cons_other c) by assumption.
      pose proof (split_nonempty x) as Hx.
      pose proof (split_nonempty (x ++ y)) as Hxy.
      destruct (split x) as [|h t]; [contradiction|].
      destruct (split (x ++ y)) as [|h' t']; [contradiction|].
      cbn [hd tl]. destruct IH as [IH1 IH2].
      destruct t as [|h2 t2].
      * cbn [removelast last app] in IH1, IH2 |- *.
        change (String c h ++ y)%string with (String c (h ++ y)).
        rewrite split_cons_other by assumption.
        assert (E : h' :: t' = split (h ++ y)).
        { apply (removelast_last_eq ""); auto using split_nonempty. }
        rewrite <- E. split; reflexivity.
      * rewrite (removelast_cons h (h2 :: t2)) in IH1 by discriminate.
        rewrite (last_cons h "" (h2 :: t2)) in IH1, IH2 by discriminate.
        rewrite (removelast_cons (String c h) (h2 :: t2)) by discriminate.
        rewrite (last_cons (String c h) "" (h2 :: t2)) by discriminate.
        destruct t' as [|h4 t4]; [discriminate IH1|].
        rewrite (removelast_cons h' (h4 :: t4)) in IH1 by discriminate.
        rewrite (last_cons h' "" (h4 :: t4)) in IH2 by discriminate.
        rewrite (removelast_cons (String c h') (h4 :: t4)) by discriminate.
        rewrite (last_cons (String c h') "" (h4 :: t4)) by discriminate.
        cbn [app] in IH1 |- *. injection IH1 as -> IH1.
        split; [f_equal; exact IH1 | exact IH2].
Qed.

Lemma append_assoc (a b c : string) : ((a ++ b) ++ c = a ++ (b ++ c))%string.
Proof. induction a as [|x a IH]; simpl; [reflexivity|now rewrite IH]. Qed.

Lemma split_closed_line (s : string) : split (s ++ newline) = split s ++ [""].
Proof.
  induction s as [|c s IH]; [reflexivity|].
  change (String c s ++ newline)%string with (String c (s ++ newline)).
  destruct (Ascii.eqb c LF) eqn:Ec.
  - apply Ascii.eqb_eq in Ec; subst c.
    rewrite !split_cons_LF, IH. reflexivity.
  - rewrite !(split_cons_other c) by assumption.
    rewrite IH. pose proof (split_nonempty s) as Hs.
    destruct (split s); [contradiction|reflexivity].
Qed.

Lemma percent_segment (c : ascii) : string_forall segment_char (percent c) = true.
Proof.
  destruct c as [[] [] [] [] [] [] [] []]; reflexivity.
Qed.

Lemma string_forall_append (p : ascii -> bool) (a b : string) :
  string_forall p (a ++ b) = string_forall p a && string_forall p b.
Proof.
  induction a as [|x a IH]; simpl; [reflexivity|].
  rewrite IH, andb_assoc. reflexivity.
Qed.

(** An encoded component holds no slash, question mark, hash or other
    delimiter: only unreserved characters and percent escapes. *)
Lemma encodeURIComponent_segment (s : string) :
  string_forall segment_char (encodeURIComponent s) = true.
Proof.
  induction s as [|c s IH]; [reflexivity|].
  cbn [encodeURIComponent]. destruct (unreserved c) eqn:Eu.
  - cbn [string_forall]. unfold segment_char at 1. rewrite Eu, IH. reflexivity.
  - rewrite string_forall_append, percent_segment, IH. reflexivity.
Qed.

(** ** The generator against the chunks of the whole stream *)

Lemma while_true_step (text : string) (rd : list read_result) (buf : string)
    (w : world) :
  while_true (ReadValue text :: rd) buf w
  = match for_of (removelast (split (buf ++ text))) "" "" with
    | ForYield c rest ev dt =>
        (Yielded c,
         SuspendedYield (mkLoop rd (last (split (buf ++ text)) "") rest ev dt), w)
    | ForEnd => while_true rd (last (split (buf ++ text)) "") w
    end.
Proof.
  cbn [while_true]. rewrite pop_split. cbn [or_empty].
  rewrite or_else_empty. reflexivity.
Qed.

Lemma while_chunks_step (text : string) (rd : list read_result) (buf : string) :
  while_chunks (ReadValue text :: rd) buf
  = (for_chunks (removelast (split (buf ++ text))) "" ""
       ++ fst (while_chunks rd (last (split (buf ++ text)) "")),
     snd (while_chunks rd (last (split (buf ++ text)) ""))).
Proof.
  cbn [while_chunks]. rewrite pop_split. cbn [or_empty].
  rewrite or_else_empty.
  destruct (while_chunks rd (last (split (buf ++ text)) "")); reflexivity.
Qed.

Lemma finish_consume (g : generator) (w : world) (cs : list chunk)
    (e : ending) (w'' : world) :
  finish (gen_next g w) cs e w'' -> consume g w cs e w''.
Proof.
  destruct (gen_next g w) as [[r g'] w'] eqn:E.
  destruct r; cbn [finish].
  - intros (cs' & -> & H). eapply consume_yielded; eassumption.
  - intros (-> & -> & ->). eapply consume_finished; eassumption.
  - intros (-> & -> & ->). eapply consume_raised; eassumption.
Qed.

Lemma finish_for (rd : list read_result) (buf : string) (w : world) :
  finish (while_true rd buf w)
         (fst (while_chunks rd buf)) (snd (while_chunks rd buf)) (releaseLock w) ->
  forall ls ev dt,
    finish
      match for_of ls ev dt with
      | ForYield c rest ev' dt' =>
          (Yielded c, SuspendedYield (mkLoop rd buf rest ev' dt'), w)
      | ForEnd => while_true rd buf w
      end
      (for_chunks ls ev dt ++ fst (while_chunks rd buf))
      (snd (while_chunks rd buf)) (releaseLock w).
Proof.
  intros H ls. induction ls as [|line rest IH]; intros ev dt;
    cbn [for_of for_chunks].
  - exact H.
  - destruct (startsWith "event: " line); [apply IH|].
    destruct (startsWith "data: " line); [apply IH|].
    destruct ((line =? "") && truthy dt); [|apply IH].
    destruct (JSON_parse dt) as [d|x]; [|apply IH].
    cbn [finish app]. eexists. split; [reflexivity|].
    apply finish_consume. exact (IH "" "").
Qed.

Lemma finish_while (rd : list read_result) :
  forall buf w,
    finish (while_true rd buf w)
           (fst (while_chunks rd buf)) (snd (while_chunks rd buf)) (releaseLock w).
Proof.
  induction rd as [|r rd IH]; intros buf w.
  - cbn. auto.
  - destruct r as [text|x].
    + rewrite while_true_step, while_chunks_step. cbn [fst snd].
      apply finish_for. apply IH.
    + cbn. auto.
Qed.

(** Consuming a fresh generator to its end delivers the chunks of
    [joinStream_chunks], ends as it says, and leaves the world of
    [joinStream_world]. *)
Lemma joinStream_consume (threadId runId : string)
    (options : option join_options) (w : world) :
  consume (SuspendedStart threadId runId options) w
          (fst (joinStream_chunks threadId runId options))
          (snd (joinStream_chunks threadId runId options))
          (joinStream_world threadId runId options w).
Proof.
  apply finish_consume. cbn [gen_next].
  unfold start, fetch, joinStream_chunks, joinStream_world.
  destruct (backend (joinStream_request threadId runId options)) as [r|x];
    [|cbn; auto].
  destruct (negb (ok r)); [cbn; auto|].
  destruct (body r) as [rd|]; [|cbn; auto].
  apply (finish_while rd "" (getReader (sent _ w))).
Qed.

(** A consumption has one outcome. *)
Lemma consume_deterministic (g : generator) (w : world)
    (cs1 cs2 : list chunk) (e1 e2 : ending) (w1 w2 : world) :
  consume g w cs1 e1 w1 -> consume g w cs2 e2 w2 ->
  cs1 = cs2 /\ e1 = e2 /\ w1 = w2.
Proof.
  intros H1. revert cs2 e2 w2.
  induction H1 as [g w c g' w' cs e w'' Hn _ IH | g w g' w' Hn | g w x g' w' Hn];
    intros cs2 e2 w2 H2; inversion H2; subst;
    match goal with
    | [ A : gen_next ?g ?w = _, B : gen_next ?g ?w = _ |- _ ] =>
        rewrite A in B; inversion B; subst
    end; auto.
  match goal with
  | [ C : consume _ _ _ _ _ |- _ ] => destruct (IH _ _ _ C) as (-> & -> & ->)
  end. auto.
Qed.

(** ** The reader: obtained once, released once *)

Lemma while_true_discipline (rd : list read_result) :
  forall buf w r g w',
    while_true rd buf w = (r, g, w') ->
    getReader_calls w = 1 -> releaseLock_calls w = 0 ->
    reader_discipline g w'.
Proof.
  induction rd as [|x rd IH]; intros buf w r g w' H Hg Hr.
  - cbn in H. inversion H; subst. cbn. lia.
  - destruct x as [text|x].
    + rewrite while_true_step in H.
      destruct (for_of (removelast (split (buf ++ text))) "" "").
      * inversion H; subst. cbn. auto.
      * eapply IH; eassumption.
    + cbn in H. inversion H; subst. cbn. lia.
Qed.

Lemma resume_discipline (s : loop_state) (w : world) r g w' :
  resume s w = (r, g, w') ->
  getReader_calls w = 1 -> releaseLock_calls w = 0 ->
  reader_discipline g w'.
Proof.
  unfold resume. intros H Hg Hr.
  destruct (for_of (lines s) "" "").
  - inversion H; subst. cbn. auto.
  - eapply while_true_discipline; eassumption.
Qed.

Lemma start_discipline (threadId runId : string)
    (options : option join_options) (w : world) r g w' :
  start threadId runId options w = (r, g, w') ->
  getReader_calls w = 0 -> releaseLock_calls w = 0 ->
  reader_discipline g w'.
Proof.
  unfold start, fetch. intros H Hg Hr.
  destruct (backend (joinStream_request threadId runId options)) as [rs|x].
  - destruct (negb (ok rs)).
    + inversion H; subst. cbn. lia.
    + destruct (body rs) as [rd|].
      * eapply while_true_discipline; [eassumption| |]; cbn; lia.
      * inversion H; subst. cbn. lia.
  - inversion H; subst. cbn. lia.
Qed.

(** Every request a consumer can make keeps the discipline. *)
Lemma apply_op_discipline (o : op) (g : generator) (w : world) r g' w' :
  apply_op o g w = (r, g', w') ->
  reader_discipline g w -> reader_discipline g' w'.
Proof.
  intros H D.
  destruct o; destruct g as [t i o|s|];
    cbn [apply_op gen_next gen_return gen_throw reader_discipline] in H, D;
    destruct D as [D1 D2];
    try (inversion H; subst; cbn; lia).
  - eapply start_discipline; eassumption.
  - eapply resume_discipline; eassumption.
  - eapply resume_discipline; eassumption.
Qed.

Lemma run_ops_discipline (ops : list op) :
  forall g w,
    reader_discipline g w ->
    reader_discipline (fst (run_ops ops g w)) (snd (run_ops ops g w)).
Proof.
  induction ops as [|o ops IH]; intros g w D; [exact D|].
  cbn [run_ops]. destruct (apply_op o g w) as [[r g'] w'] eqn:E.
  apply IH. eapply apply_op_discipline; eassumption.
Qed.

(** How a request to the generator leaves it: on a chunk it waits at the
    [yield], otherwise it has completed. *)
Lemma while_true_exit (rd : list read_result) :
  forall buf w r g w',
    while_true rd buf w = (r, g, w') ->
    getReader_calls w' = getReader_calls w
    /\ match r with
       | Yielded _ => exists s, g = SuspendedYield s
       | _ => g = Completed
       end.
Proof.
  induction rd as [|x rd IH]; intros buf w r g w' H.
  - cbn in H. inversion H; subst. auto.
  - destruct x as [text|x].
    + rewrite while_true_step in H.
      destruct (for_of (removelast (split (buf ++ text))) "" "").
      * inversion H; subst. eauto.
      * eapply IH; eassumption.
    + cbn in H. inversion H; subst. auto.
Qed.

Lemma resume_exit (s : loop_state) (w : world) r g w' :
  resume s w = (r, g, w') ->
  getReader_calls w' = getReader_calls w
  /\ match r with
     | Yielded _ => exists s', g = SuspendedYield s'
     | _ => g = Completed
     end.
Proof.
  unfold resume. intros H. destruct (for_of (lines s) "" "").
  - inversion H; subst. eauto.
  - eapply while_true_exit; eassumption.
Qed.

Lemma apply_op_exit (o : op) (g : generator) (w : world) r g' w' :
  apply_op o g w = (r, g', w') ->
  getReader_calls w <= getReader_calls w'
  /\ match r with
     | Yielded _ => exists s, g' = SuspendedYield s
     | _ => g' = Completed
     end.
Proof.
  intros H.
  destruct o; destruct g as [t i o|s|];
    cbn [apply_op gen_next gen_return gen_throw] in H;
    try (inversion H; subst; split; [apply le_n|reflexivity]).
  - unfold start, fetch in H.
    destruct (backend (joinStream_request t i o)) as [rs|x].
    + destruct (negb (ok rs)).
      * inversion H; subst. split; [apply le_n|reflexivity].
      * destruct (body rs) as [rd|].
        -- apply while_true_exit in H as [Hg Hr]. split; [|exact Hr].
           rewrite Hg. cbn. apply Nat.le_succ_diag_r.
        -- inversion H; subst. split; [apply le_n|reflexivity].
    + inversion H; subst. split; [apply le_n|reflexivity].
  - apply resume_exit in H as [Hg Hr]. split; [rewrite Hg; apply le_n|exact Hr].
  - apply resume_exit in H as [Hg Hr]. split; [rewrite Hg; apply le_n|exact Hr].
Qed.

(** C2.  The reader of a generator made by [joinStream], for every
    execution: whatever requests [ops] the consumer has made (pulls, early
    returns, throws, in any order and number) and whatever request [o] it
    makes next.  The discipline holds before the request.  When the
    request delivers a chunk the generator waits at its [yield] holding the
    reader, unreleased.  When it does not, because the stream has
    ended, a read has rejected, or the consumer returns early (a return
    always ends the generator), the generator has completed and a reader
    that was obtained has been released, once; the discipline then keeps
    it from being released again.  And a consumer that pulls to the end
    does reach the end, with the reader obtained and released once when
    the response has a body and never otherwise. *)
Theorem joinStream_reader_released_once (threadId runId : string)
    (options : option join_options) (sent_before : list request)
    (ops : list op) (o : op) :
  let w0 := mkWorld sent_before 0 0 in
  let g := fst (run_ops ops (SuspendedStart threadId runId options) w0) in
  let w := snd (run_ops ops (SuspendedStart threadId runId options) w0) in
  reader_discipline g w
  /\ match apply_op o g w with
     | (Yielded _, g', w') =>
         (exists s, g' = SuspendedYield s)
         /\ getReader_calls w' = 1 /\ releaseLock_calls w' = 0
     | (_, g', w') =>
         g' = Completed
         /\ releaseLock_calls w' = getReader_calls w'
         /\ getReader_calls w <= getReader_calls w' <= 1
     end
  /\ match o with
     | Return => fst (fst (apply_op o g w)) = Finished
     | _ => True
     end
  /\ exists cs e w',
       consume (SuspendedStart threadId runId options) w0 cs e w'
       /\ (getReader_calls w', releaseLock_calls w')
          = match backend (joinStream_request threadId runId options) with
            | Normal r =>
                if ok r
                then match body r with
                     | Some _ => (1, 1)
                     | None => (0, 0)
                     end
                else (0, 0)
            | Throw _ => (0, 0)
            end.
Proof.
  intros w0 g w.
  assert (D : reader_discipline g w).
  { apply run_ops_discipline. cbn. auto. }
  split; [exact D|]. split; [|split].
  - destruct (apply_op o g w) as [[r g'] w'] eqn:E.
    pose proof (apply_op_discipline _ _ _ _ _ _ E D) as D'.
    destruct (apply_op_exit _ _ _ _ _ _ E) as [Hmono Hexit].
    destruct r.
    + destruct Hexit as [s ->]. cbn in D'. split; [eauto|exact D'].
    + subst g'. cbn in D'. split; [reflexivity|]. lia.
    + subst g'. cbn in D'. split; [reflexivity|]. lia.
  - destruct o; [exact I| |exact I]. destruct g; reflexivity.
  - exists (fst (joinStream_chunks threadId runId options)),
           (snd (joinStream_chunks threadId runId options)),
           (joinStream_world threadId runId options w0).
    split; [apply joinStream_consume|].
    unfold joinStream_world.
    destruct (backend (joinStream_request threadId runId options)) as [r|x];
      [|reflexivity].
    destruct (ok r); cbn [negb]; [|reflexivity].
    destruct (body r); reflexivity.
Qed.

(** ** The request/response operations *)

(** C3.  When the backend answers the state request of a thread with
    status 404, [getState] does not throw: it returns the empty thread
    state [{values: {messages: []}, next: [], tasks: []}]. *)
Theorem getState_not_found_is_empty (threadId : string) (w : world)
    (r : response) :
  backend (getState_request threadId) = Normal r ->
  status r = 404%Z ->
  getState threadId w
  = (Normal (VObject [("values", VObject [("messages", VArray [])]);
                      ("next", VArray []);
                      ("tasks", VArray [])]),
     sent (getState_request threadId) w).
Proof.
  intros Hb Hs. unfold getState, fetch. rewrite Hb.
  unfold ok. rewrite Hs. reflexivity.
Qed.

(** C4.  A response whose status is not a success makes [getHistory],
    [runs.list] and the first request to a [joinStream] generator throw an
    [Error] whose message carries the status text, and [getState] too
    unless the status is 404; nothing is returned, and the generator
    completes without a chunk. *)
Theorem non_success_status_throws (threadId runId : string)
    (hopts : option (history_options number)) (jopts : option join_options)
    (w : world) (r : response) :
  ok r = false ->
  (backend (getHistory_request threadId hopts) = Normal r ->
   getHistory threadId hopts w
   = (Throw (Error_ ("Failed to fetch history: " ++ statusText r)),
      sent (getHistory_request threadId hopts) w))
  /\ (backend (list_request threadId) = Normal r ->
      list_ threadId w
      = (Throw (Error_ ("Failed to list runs: " ++ statusText r)),
         sent (list_request threadId) w))
  /\ (backend (joinStream_request threadId runId jopts) = Normal r ->
      gen_next (SuspendedStart threadId runId jopts) w
      = (Raised (Error_ ("Failed to join stream: " ++ statusText r)),
         Completed, sent (joinStream_request threadId runId jopts) w)
      /\ consume (SuspendedStart threadId runId jopts) w []
           (EndThrow (Error_ ("Failed to join stream: " ++ statusText r)))
           (sent (joinStream_request threadId runId jopts) w))
  /\ (backend (getState_request threadId) = Normal r ->
      status r <> 404%Z ->
      getState threadId w
      = (Throw (Error_ ("Failed to fetch state: " ++ statusText r)),
         sent (getState_request threadId) w)).
Proof.
  intros Hok. split; [|split; [|split]].
  - intros Hb. unfold getHistory, fetch. rewrite Hb, Hok. reflexivity.
  - intros Hb. unfold list_, fetch. rewrite Hb, Hok. reflexivity.
  - intros Hb.
    assert (E : gen_next (SuspendedStart threadId runId jopts) w
                = (Raised (Error_ ("Failed to join stream: " ++ statusText r)),
                   Completed,
                   sent (joinStream_request threadId runId jopts) w)).
    { cbn [gen_next]. unfold start, fetch. rewrite Hb, Hok. reflexivity. }
    split; [exact E|]. eapply consume_raised. exact E.
  - intros Hb Hs. unfold getState, fetch. rewrite Hb, Hok. cbn [negb].
    apply Z.eqb_neq in Hs. rewrite Hs. reflexivity.
Qed.

(** C8.  When the response to the join request has a success status and no
    body, the first request to the generator already reports the end: no
    chunk, no exception, and no reader was obtained. *)
Theorem joinStream_without_body_is_empty (threadId runId : string)
    (options : option join_options) (w : world) (r : response) :
  backend (joinStream_request threadId runId options) = Normal r ->
  ok r = true ->
  body r = None ->
  gen_next (SuspendedStart threadId runId options) w
  = (Finished, Completed, sent (joinStream_request threadId runId options) w)
  /\ consume (SuspendedStart threadId runId options) w [] EndNormal
       (sent (joinStream_request threadId runId options) w).
Proof.
  intros Hb Hok Hbody.
  assert (E : gen_next (SuspendedStart threadId runId options) w
              = (Finished, Completed,
                 sent (joinStream_request threadId runId options) w)).
  { cbn [gen_next]. unfold start, fetch. rewrite Hb, Hok, Hbody. reflexivity. }
  split; [exact E|]. eapply consume_finished. exact E.
Qed.

(** C9.  [getHistory] sends exactly one request: a GET of
    [/threads/{threadId}/history?limit={n}] under the normalised base URL,
    where the thread id is percent-encoded, so that it stays one path
    segment, and [n] is the limit of the options, whatever number it is,
    written as [`${limit}`] writes it, or 100 when the options or their
    limit are missing. *)
Theorem getHistory_sends_one_GET (threadId : string)
    (options : option (history_options number)) (w : world) :
  requests (snd (getHistory threadId options w))
  = requests w
      ++ [mkRequest "GET"
            (replace_trailing_slash baseUrl ++ "/threads/"
               ++ encodeURIComponent threadId
               ++ "/history?limit="
               ++ match options with
                  | Some (mkHistoryOptions (Some given)) => Number_toString given
                  | _ => "100"
                  end)
            [] None]
  /\ string_forall segment_char (encodeURIComponent threadId) = true.
Proof.
  split; [|apply encodeURIComponent_segment].
  unfold getHistory, fetch.
  assert (E : snd (let '(res, w1) :=
                     (backend (getHistory_request threadId options),
                      sent (getHistory_request threadId options) w) in
                   match res with
                   | Normal response =>
                       if negb (ok response)
                       then (Throw (Error_ ("Failed to fetch history: "
                                              ++ statusText response)), w1)
                       else (Response_json response, w1)
                   | Throw e => (Throw e, w1)
                   end)
              = sent (getHistory_request threadId options) w).
  { destruct (backend (getHistory_request threadId options)) as [rs|x];
      [destruct (negb (ok rs))|]; reflexivity. }
  rewrite E. cbn [sent requests]. do 2 f_equal.
  unfold getHistory_request, GET, url.
  destruct options as [[[given|]]|]; cbn [nullish limit];
    rewrite ?Number_toString_100; reflexivity.
Qed.

(** ** Frames *)

Lemma nonblank_eqb (line : string) : line <> "" -> (line =? "") = false.
Proof. intros H. apply String.eqb_neq. exact H. Qed.

(** A line is not an event line and a data line at once. *)
Lemma event_line_not_data (line : string) :
  startsWith "event: " line = true -> startsWith "data: " line = false.
Proof.
  destruct line as [|c r]; [discriminate|].
  destruct c as [[] [] [] [] [] [] [] []]; cbn; intros E;
    solve [reflexivity | discriminate E].
Qed.

(** Lines that are not blank only move the accumulators. *)
Lemma for_of_nonblank (ls rest : list string) :
  Forall (fun line => line <> "") ls ->
  forall ev dt,
    for_of (ls ++ rest) ev dt = for_of rest (last_event ls ev) (last_data ls dt).
Proof.
  induction 1 as [|line ls Hline _ IH]; intros ev dt; [reflexivity|].
  cbn [app for_of last_event last_data fold_left].
  fold (last_event ls). fold (last_data ls).
  destruct (startsWith "event: " line) eqn:Ee.
  - rewrite (event_line_not_data line Ee). apply IH.
  - destruct (startsWith "data: " line); [apply IH|].
    rewrite (nonblank_eqb line Hline). cbn [andb]. apply IH.
Qed.

Lemma for_chunks_nonblank (ls rest : list string) :
  Forall (fun line => line <> "") ls ->
  forall ev dt,
    for_chunks (ls ++ rest) ev dt
    = for_chunks rest (last_event ls ev) (last_data ls dt).
Proof.
  induction 1 as [|line ls Hline _ IH]; intros ev dt; [reflexivity|].
  cbn [app for_chunks last_event last_data fold_left].
  fold (last_event ls). fold (last_data ls).
  destruct (startsWith "event: " line) eqn:Ee.
  - rewrite (event_line_not_data line Ee). apply IH.
  - destruct (startsWith "data: " line); [apply IH|].
    rewrite (nonblank_eqb line Hline). cbn [andb]. apply IH.
Qed.

Lemma for_of_blank (rest : list string) (ev dt : string) :
  for_of ("" :: rest) ev dt = at_blank ev dt rest.
Proof. cbn [for_of]. unfold at_blank. cbn. destruct (truthy dt); reflexivity. Qed.

Lemma last_data_app (l1 l2 : list string) (dt : string) :
  last_data (l1 ++ l2) dt = last_data l2 (last_data l1 dt).
Proof. unfold last_data. apply fold_left_app. Qed.

Lemma last_event_app (l1 l2 : list string) (ev : string) :
  last_event (l1 ++ l2) ev = last_event l2 (last_event l1 ev).
Proof. unfold last_event. apply fold_left_app. Qed.

Lemma last_data_none (ls : list string) (dt : string) :
  Forall (fun line => startsWith "data: " line = false) ls ->
  last_data ls dt = dt.
Proof.
  induction 1 as [|line ls Hline _ IH]; [reflexivity|].
  cbn [last_data fold_left]. rewrite Hline. exact IH.
Qed.

Lemma last_event_none (ls : list string) (ev : string) :
  Forall (fun line => startsWith "event: " line = false) ls ->
  last_event ls ev = ev.
Proof.
  induction 1 as [|line ls Hline _ IH]; [reflexivity|].
  cbn [last_event fold_left]. rewrite Hline. exact IH.
Qed.

Lemma last_data_line (p dt : string) : last_data [data_line p] dt = p.
Proof. reflexivity. Qed.

Lemma last_event_line (v ev : string) :
  last_event [event_line v] ev = trim v.
Proof. reflexivity. Qed.

Lemma truthy_nonblank (s : string) : s <> "" -> truthy s = true.
Proof. intros H. unfold truthy. rewrite (nonblank_eqb s H). reflexivity. Qed.

(** C10.  A frame with several [data:] lines: whatever came before
    (accumulators [ev0], [dt0]), at the blank line that ends the frame the
    data accumulator is the payload [p] of the last [data:] line and
    nothing else.  Only [p] is parsed, and the chunk, if [p] parses,
    carries its value; the payload [p1] of an earlier data line was
    overwritten and takes no part (an empty [p] does not even end the
    frame). *)
Theorem last_data_line_wins (l1 l2 l3 rest : list string) (p1 p : string)
    (ev0 dt0 : string) :
  Forall (fun line => line <> "") (l1 ++ l2 ++ l3) ->
  Forall (fun line => startsWith "data: " line = false) l3 ->
  let frame := l1 ++ data_line p1 :: l2 ++ data_line p :: l3 in
  let ev := last_event frame ev0 in
  for_of (frame ++ "" :: rest) ev0 dt0
  = if truthy p then
      match JSON_parse p with
      | Normal d => ForYield (mkChunk (or_else ev "message") d) rest ev p
      | Throw _ => for_of rest "" ""
      end
    else for_of rest ev p.
Proof.
  intros Hnb Hl3 frame ev.
  assert (Hframe : Forall (fun line => line <> "") frame).
  { unfold frame. apply Forall_app in Hnb as [H1 H23].
    apply Forall_app in H23 as [H2 H3].
    apply Forall_app. split; [assumption|].
    constructor; [discriminate|].
    apply Forall_app. split; [assumption|].
    constructor; [discriminate|assumption]. }
  assert (Hdata : last_data frame dt0 = p).
  { unfold frame.
    change (l1 ++ data_line p1 :: l2 ++ data_line p :: l3)
      with (l1 ++ [data_line p1] ++ l2 ++ [data_line p] ++ l3).
    rewrite !last_data_app, (last_data_none l3) by assumption.
    apply last_data_line. }
  rewrite (for_of_nonblank frame _ Hframe), Hdata, for_of_blank.
  reflexivity.
Qed.

(** Whether the data accumulator after some lines depends on what it was
    before them: it does not, unless no data line was among them. *)
Lemma last_data_either (ls : list string) :
  forall d1 d2,
    last_data ls d1 = last_data ls d2
    \/ (last_data ls d1 = d1 /\ last_data ls d2 = d2).
Proof.
  induction ls as [|line ls IH]; intros d1 d2; [right; split; reflexivity|].
  cbn [last_data fold_left]. fold (last_data ls).
  destruct (startsWith "data: " line).
  - left. reflexivity.
  - apply IH.
Qed.

(** The same frame when a read boundary cuts it: [cut_off] was read
    earlier, [here] and the blank line are read now, from accumulators that
    are empty again.  If a chunk comes out at all, it still carries the
    value of the last data line of the frame and of no other. *)
Lemma cut_frame_chunk_has_last_data (cut_off here l1 l3 : list string)
    (p : string) (c : chunk) (rest : list string) (ev dt : string) :
  cut_off ++ here = l1 ++ data_line p :: l3 ->
  Forall (fun line => line <> "") here ->
  Forall (fun line => startsWith "data: " line = false) l3 ->
  for_of (here ++ [""]) "" "" = ForYield c rest ev dt ->
  JSON_parse p = Normal (data c).
Proof.
  intros Hcut Hnb Hl3 Hyield.
  rewrite (for_of_nonblank here _ Hnb), for_of_blank in Hyield.
  unfold at_blank in Hyield.
  destruct (truthy (last_data here "")) eqn:Et; [|discriminate Hyield].
  assert (Hp : last_data here "" = p).
  { assert (E : last_data (cut_off ++ here) "" = p).
    { rewrite Hcut.
      change (l1 ++ data_line p :: l3) with (l1 ++ [data_line p] ++ l3).
      rewrite !last_data_app, (last_data_none l3) by assumption.
      apply last_data_line. }
    rewrite last_data_app in E.
    destruct (last_data_either here "" (last_data cut_off "")) as [H | [H _]].
    - rewrite H. exact E.
    - rewrite H in Et. discriminate Et. }
  rewrite Hp in Hyield.
  destruct (JSON_parse p) as [d|x]; [|discriminate Hyield].
  inversion Hyield; subst. reflexivity.
Qed.

(** C7, as the code has it.  A frame (lines none of which is blank, read
    from reset accumulators, closed by a blank line) whose last [data:]
    payload [p] is not empty and parses: the chunk's event is "message"
    when the frame has no [event:] line; when it has one, the event is the
    trimmed value of the last such line, unless that is empty, and then
    it is "message" again. *)
Theorem frame_event_name (ls rest : list string) (p : string) (d : value) :
  Forall (fun line => line <> "") ls ->
  last_data ls "" = p ->
  p <> "" ->
  JSON_parse p = Normal d ->
  exists ev,
    for_of (ls ++ "" :: rest) "" "" = ForYield (mkChunk ev d) rest (last_event ls "") p
    /\ (Forall (fun line => startsWith "event: " line = false) ls ->
        ev = "message")
    /\ (forall l1 v l2,
          ls = l1 ++ event_line v :: l2 ->
          Forall (fun line => startsWith "event: " line = false) l2 ->
          ev = if trim v =? "" then "message" else trim v).
Proof.
  intros Hnb Hdata Hp Hd.
  exists (or_else (last_event ls "") "message"). split; [|split].
  - rewrite (for_of_nonblank ls _ Hnb), Hdata, for_of_blank.
    unfold at_blank. rewrite (truthy_nonblank p Hp), Hd. reflexivity.
  - intros Hno. rewrite (last_event_none ls "" Hno). reflexivity.
  - intros l1 v l2 -> Hno.
    change (l1 ++ event_line v :: l2) with (l1 ++ [event_line v] ++ l2).
    rewrite !last_event_app, (last_event_none l2 _ Hno), last_event_line.
    unfold or_else, truthy. destruct (trim v =? ""); reflexivity.
Qed.

(** ** The end of the stream *)

Lemma append_nil_r (s : string) : (s ++ "")%string = s.
Proof. induction s as [|c s IH]; simpl; [reflexivity|now rewrite IH]. Qed.

(** The open line of a text holds no newline. *)
Lemma open_line_idempotent (s : string) :
  last (split (last (split s) "")) "" = last (split s) "".
Proof.
  pose proof (split_append s "") as [_ H].
  rewrite !append_nil_r in H. symmetry. exact H.
Qed.

Lemma buffer_after_text (rs : list string) :
  forall buf,
    last (split buf) "" = buf ->
    buffer_after buf rs = last (split (buf ++ text_of rs)) "".
Proof.
  induction rs as [|t rs IH]; intros buf Hbuf.
  - cbn. rewrite append_nil_r. symmetry. exact Hbuf.
  - cbn [buffer_after fold_left text_of fold_right].
    fold (buffer_after (last (split (buf ++ t)) "") rs). fold (text_of rs).
    rewrite IH by apply open_line_idempotent.
    rewrite <- append_assoc.
    destruct (split_append (buf ++ t) (text_of rs)) as [_ H]. symmetry. exact H.
Qed.

Lemma line_closed_open_line (s : string) :
  line_closed s -> last (split s) "" = "".
Proof.
  intros [-> | [s' ->]]; [reflexivity|].
  rewrite split_closed_line. apply last_last.
Qed.

Lemma for_chunks_app_nonblank (ls1 ls2 : list string) :
  Forall (fun line => line <> "") ls2 ->
  forall ev dt, for_chunks (ls1 ++ ls2) ev dt = for_chunks ls1 ev dt.
Proof.
  intros H2. induction ls1 as [|line ls1 IH]; intros ev dt.
  - cbn [app]. rewrite <- (app_nil_r ls2).
    rewrite (for_chunks_nonblank ls2 [] H2). reflexivity.
  - cbn [app for_chunks].
    destruct (startsWith "event: " line); [apply IH|].
    destruct (startsWith "data: " line); [apply IH|].
    destruct ((line =? "") && truthy dt); [|apply IH].
    destruct (JSON_parse dt); rewrite IH; reflexivity.
Qed.

(** Reads none of whose complete lines is blank deliver nothing. *)
Lemma while_chunks_nonblank (rs : list string) :
  forall buf,
    Forall (fun line => line <> "") (removelast (split (buf ++ text_of rs))) ->
    while_chunks (map ReadValue rs) buf = ([], EndNormal).
Proof.
  induction rs as [|t rs IH]; intros buf H; [reflexivity|].
  cbn [map]. rewrite while_chunks_step.
  cbn [text_of fold_right] in H. fold (text_of rs) in H.
  rewrite <- append_assoc in H.
  destruct (split_append (buf ++ t) (text_of rs)) as [E _].
  rewrite E in H. apply Forall_app in H as [H1 H2].
  rewrite (IH _ H2). cbn [fst snd].
  rewrite <- (app_nil_r (removelast (split (buf ++ t)))).
  rewrite (for_chunks_nonblank _ [] H1). reflexivity.
Qed.

(** The chunks of reads followed by more reads. *)
Lemma while_chunks_app (rs : list string) (more : list read_result) :
  forall buf,
    while_chunks (map ReadValue rs ++ more) buf
    = (fst (while_chunks (map ReadValue rs) buf)
         ++ fst (while_chunks more (buffer_after buf rs)),
       snd (while_chunks more (buffer_after buf rs))).
Proof.
  induction rs as [|t rs IH]; intros buf.
  - cbn. destruct (while_chunks more buf); reflexivity.
  - cbn [map app]. rewrite !while_chunks_step, IH. cbn [fst snd].
    rewrite app_assoc. reflexivity.
Qed.

(** C6.  A stream that ends while content is left without its blank line.
    The reads [before] and the piece [c1] bring a text that ends with a
    newline (or nothing at all); the rest of that read, [c2], and the reads
    [after] bring the trailing content, none of whose complete lines is
    blank.  However the stream is cut into reads, it delivers exactly the
    chunks it delivers when it stops before the trailing content: nothing
    is made of what is left when the source reports the end. *)
Theorem trailing_incomplete_frame_discarded (before after : list string)
    (c1 c2 : string) :
  line_closed (text_of before ++ c1) ->
  Forall (fun line => line <> "") (removelast (split (c2 ++ text_of after))) ->
  while_chunks
    (map ReadValue before ++ ReadValue (c1 ++ c2) :: map ReadValue after) ""
  = while_chunks (map ReadValue before ++ [ReadValue c1]) "".
Proof.
  intros Hclosed Htail.
  rewrite !while_chunks_app, !while_chunks_step.
  set (b := buffer_after "" before).
  assert (Ho : last (split (b ++ c1)) "" = "").
  { unfold b. rewrite buffer_after_text by reflexivity. cbn [append].
    destruct (split_append (text_of before) c1) as [_ E].
    rewrite <- E. apply line_closed_open_line. exact Hclosed. }
  destruct (split_append c2 (text_of after)) as [E2 _].
  rewrite E2 in Htail. apply Forall_app in Htail as [H2a H2b].
  rewrite <- (append_assoc b c1 c2).
  destruct (split_append (b ++ c1) c2) as [E1 E1'].
  rewrite E1, E1', Ho. cbn [append].
  rewrite (for_chunks_app_nonblank _ _ H2a).
  rewrite (while_chunks_nonblank after _ H2b).
  reflexivity.
Qed.

(** ** Frames that do not parse *)

Lemma truthy_false (s : string) : truthy s = false -> s = "".
Proof.
  unfold truthy. intros H. apply negb_false_iff in H.
  apply String.eqb_eq. exact H.
Qed.

Lemma split_line (line rest : string) :
  no_LF line = true ->
  split (line ++ newline ++ rest) = line :: split rest.
Proof.
  induction line as [|c line IH]; intros H; [reflexivity|].
  cbn [no_LF string_forall] in H. apply andb_prop in H as [Hc H].
  apply negb_true_iff in Hc.
  change (String c line ++ newline ++ rest)%string
    with (String c (line ++ newline ++ rest)).
  rewrite split_cons_other by assumption.
  rewrite (IH H). reflexivity.
Qed.

Lemma split_unlines (ls : list string) :
  Forall (fun line => no_LF line = true) ls ->
  split (unlines ls) = ls ++ [""].
Proof.
  induction 1 as [|line ls Hline _ IH]; [reflexivity|].
  cbn [unlines fold_right]. fold (unlines ls).
  rewrite (split_line line _ Hline), IH. reflexivity.
Qed.

Lemma frame_lines_no_LF (f : frame) :
  on_lines f -> Forall (fun line => no_LF line = true) (frame_lines f).
Proof.
  intros [Hd He]. unfold frame_lines.
  destruct (frame_event f) as [v|]; cbn [app];
    repeat constructor; cbn; assumption.
Qed.

Lemma frames_lines_no_LF (fs : list frame) :
  Forall on_lines fs ->
  Forall (fun line => no_LF line = true) (concat (map frame_lines fs)).
Proof.
  induction 1 as [|f fs Hf _ IH]; [constructor|].
  cbn [map concat]. apply Forall_app. split; [|exact IH].
  apply frame_lines_no_LF. exact Hf.
Qed.

(** The payload values delivered for whole frames read in one go: each
    frame contributes what it contributes alone, in order; a frame that
    does not parse contributes nothing and breaks nothing. *)
Lemma for_chunks_frames (fs : list frame) :
  forall ev,
    map data (for_chunks (concat (map frame_lines fs)) ev "")
    = flat_map parsed_data fs.
Proof.
  induction fs as [|f fs IH]; intros ev; [reflexivity|].
  cbn [map concat flat_map]. unfold frame_lines at 1, parsed_data at 1.
  set (p := frame_data f).
  assert (Hdata : forall e,
             map data (for_chunks ([data_line p; ""]
                                       ++ concat (map frame_lines fs)) e "")
             = (if truthy p
                then match JSON_parse p with
                     | Normal d => [d]
                     | Throw _ => []
                     end
                else []) ++ flat_map parsed_data fs).
  { intros e. cbn [app for_chunks startsWith data_line append Ascii.eqb
                     Bool.eqb andb slice String.eqb].
    destruct (truthy p) eqn:Ep.
    - destruct (JSON_parse p) as [d|x]; cbn [map app]; rewrite IH; reflexivity.
    - cbn [app]. rewrite (truthy_false p Ep). apply IH. }
  destruct (frame_event f) as [v|].
  - cbn [app for_chunks startsWith event_line append Ascii.eqb Bool.eqb andb].
    apply Hdata.
  - apply Hdata.
Qed.

(** The same for a stream whose reads each hold whole frames. *)
Lemma while_chunks_frames (groups : list (list frame)) :
  Forall (Forall on_lines) groups ->
  map data (fst (while_chunks (map (fun fs => ReadValue (frames_text fs)) groups) ""))
  = flat_map parsed_data (concat groups)
  /\ snd (while_chunks (map (fun fs => ReadValue (frames_text fs)) groups) "")
     = EndNormal.
Proof.
  induction 1 as [|fs groups Hfs _ [IH1 IH2]]; [split; reflexivity|].
  cbn [map concat]. rewrite while_chunks_step. cbn [append fst snd].
  change (frames_text fs) with (unlines (concat (map frame_lines fs))).
  rewrite (split_unlines _ (frames_lines_no_LF fs Hfs)).
  rewrite removelast_last, last_last.
  rewrite map_app, flat_map_app, for_chunks_frames, IH1.
  split; [reflexivity|exact IH2].
Qed.

Lemma parsed_data_well_formed (f : frame) (d : value) :
  frame_data f <> "" ->
  JSON_parse (frame_data f) = Normal d ->
  parsed_data f = [d].
Proof.
  intros Hne Hd. unfold parsed_data.
  rewrite (truthy_nonblank _ Hne), Hd. reflexivity.
Qed.

Lemma parsed_data_malformed (f : frame) (x : exn) :
  JSON_parse (frame_data f) = Throw x -> parsed_data f = [].
Proof.
  intros Hx. unfold parsed_data. rewrite Hx.
  destruct (truthy (frame_data f)); reflexivity.
Qed.

(** One frame that does not parse, among frames delivered whole: the
    values of the other frames arrive, all of them and in their order, and
    the stream ends normally. *)
Lemma malformed_frame_skipped (groups : list (list frame))
    (pre post : list frame) (bad : frame) (x : exn) :
  Forall (Forall on_lines) groups ->
  concat groups = pre ++ bad :: post ->
  JSON_parse (frame_data bad) = Throw x ->
  map data (fst (while_chunks (map (fun fs => ReadValue (frames_text fs)) groups) ""))
  = flat_map parsed_data pre ++ flat_map parsed_data post
  /\ snd (while_chunks (map (fun fs => ReadValue (frames_text fs)) groups) "")
     = EndNormal.
Proof.
  intros Hg Hc Hx. destruct (while_chunks_frames groups Hg) as [E1 E2].
  split; [|exact E2].
  rewrite E1, Hc, flat_map_app. cbn [flat_map].
  rewrite (parsed_data_malformed bad x Hx). reflexivity.
Qed.

(** ** More on the decode loop *)

(** The chunks of lines followed by more lines: the second part starts
    from the accumulators the first part leaves. *)
Lemma for_chunks_app (l1 l2 : list string) :
  forall ev dt,
    for_chunks (l1 ++ l2) ev dt
    = for_chunks l1 ev dt
        ++ for_chunks l2 (fst (for_acc l1 ev dt)) (snd (for_acc l1 ev dt)).
Proof.
  induction l1 as [|line l1 IH]; intros ev dt; [reflexivity|].
  cbn [app for_chunks for_acc].
  destruct (startsWith "event: " line); [apply IH|].
  destruct (startsWith "data: " line); [apply IH|].
  destruct ((line =? "") && truthy dt); [|apply IH].
  destruct (JSON_parse dt); rewrite IH; reflexivity.
Qed.

Lemma ignored_lines_pass (noise : list string) :
  Forall (fun line => is_ignored line = true) noise ->
  forall ev dt,
    for_chunks noise ev dt = [] /\ for_acc noise ev dt = (ev, dt).
Proof.
  induction 1 as [|line noise Hline _ IH]; intros ev dt; [split; reflexivity|].
  unfold is_ignored in Hline.
  apply andb_prop in Hline as [Hline Hb]. apply andb_prop in Hline as [He Hd].
  apply negb_true_iff in He, Hd, Hb.
  cbn [for_chunks for_acc]. rewrite He, Hd, Hb. cbn [andb]. apply IH.
Qed.

(** Comment lines, unknown fields ([id:], [retry:]) and fields written
    without the space after the colon are passed over: wherever such lines
    stand among the lines of a read, the chunks are the same as without
    them. *)
Theorem ignored_lines_change_nothing (l1 noise l2 : list string)
    (ev dt : string) :
  Forall (fun line => is_ignored line = true) noise ->
  for_chunks (l1 ++ noise ++ l2) ev dt = for_chunks (l1 ++ l2) ev dt.
Proof.
  intros H. rewrite !for_chunks_app.
  destruct (ignored_lines_pass noise H (fst (for_acc l1 ev dt))
                               (snd (for_acc l1 ev dt))) as [E1 E2].
  rewrite E1, E2. reflexivity.
Qed.

(** A read may be cut in two wherever both accumulators are empty after
    the lines its first part completes (before its first newline, say, or
    right after a frame that was emitted): the stream gives the same
    chunks and ends the same way. *)
Theorem cut_at_empty_accumulators_is_harmless (a b buf : string)
    (more : list read_result) :
  for_acc (removelast (split (buf ++ a))) "" "" = ("", "") ->
  while_chunks (ReadValue a :: ReadValue b :: more) buf
  = while_chunks (ReadValue (a ++ b) :: more) buf.
Proof.
  intros Hacc. rewrite !while_chunks_step. cbn [fst snd].
  rewrite <- (append_assoc buf a b).
  destruct (split_append (buf ++ a) b) as [E1 E2].
  rewrite E1, E2, for_chunks_app, Hacc. cbn [fst snd].
  rewrite app_assoc. reflexivity.
Qed.

(** Frames with a payload, read whole from reset accumulators: each gives
    the chunk it gives alone. *)
Lemma for_chunks_whole_frames (fs : list frame) (rest : list string) :
  Forall (fun f => frame_data f <> "") fs ->
  for_chunks (concat (map frame_lines fs) ++ rest) "" ""
  = flat_map frame_chunk fs ++ for_chunks rest "" "".
Proof.
  induction 1 as [|f fs Hf _ IH]; [reflexivity|].
  cbn [map concat flat_map]. rewrite <- !app_assoc.
  unfold frame_lines at 1, frame_chunk at 1.
  assert (Hdata : forall e,
             for_chunks ([data_line (frame_data f); ""]
                           ++ concat (map frame_lines fs) ++ rest) e ""
             = match JSON_parse (frame_data f) with
               | Normal d => [mkChunk (or_else e "message") d]
               | Throw _ => []
               end ++ flat_map frame_chunk fs ++ for_chunks rest "" "").
  { intros e. cbn [app for_chunks startsWith data_line append Ascii.eqb
                     Bool.eqb andb slice String.eqb].
    rewrite (truthy_nonblank _ Hf).
    destruct (JSON_parse (frame_data f)) as [d|x]; cbn [app]; rewrite IH;
      reflexivity. }
  destruct (frame_event f) as [v|].
  - cbn [app for_chunks startsWith event_line append Ascii.eqb Bool.eqb andb
           slice].
    apply Hdata.
  - apply Hdata.
Qed.

(** A stream of frames with a payload, cut into reads at frame boundaries
    only: the chunks are those of the frames, one by one and in order,
    each with its own event name (or "message"); a frame whose payload
    does not parse gives none; the stream ends normally. *)
Theorem whole_frames_decode (groups : list (list frame)) :
  Forall (Forall on_lines) groups ->
  Forall (Forall (fun f => frame_data f <> "")) groups ->
  while_chunks (map (fun fs => ReadValue (frames_text fs)) groups) ""
  = (flat_map frame_chunk (concat groups), EndNormal).
Proof.
  intros Hl. induction Hl as [|fs groups Hfs _ IH]; intros Hd; [reflexivity|].
  inversion Hd as [|? ? Hd1 Hd2]; subst.
  cbn [map concat]. rewrite while_chunks_step. cbn [append].
  change (frames_text fs) with (unlines (concat (map frame_lines fs))).
  rewrite (split_unlines _ (frames_lines_no_LF fs Hfs)).
  rewrite removelast_last, last_last, (IH Hd2). cbn [fst snd].
  rewrite <- (app_nil_r (concat (map frame_lines fs))).
  rewrite (for_chunks_whole_frames fs [] Hd1). cbn [for_chunks].
  rewrite app_nil_r, flat_map_app. reflexivity.
Qed.

(** A frame with an event line and an empty payload is not ended by its
    blank line: nothing is emitted, and its event name is still set when
    the next frame comes, which takes it over if it has no event line of
    its own. *)
Theorem event_name_survives_empty_payload (v p : string) (d : value) :
  no_LF v = true ->
  no_LF p = true ->
  p <> "" ->
  JSON_parse p = Normal d ->
  while_chunks
    [ReadValue (frames_text [mkFrame (Some v) ""; mkFrame None p])] ""
  = ([mkChunk (or_else (trim v) "message") d], EndNormal).
Proof.
  intros Hv Hp Hne Hd. rewrite while_chunks_step. cbn [append].
  change (frames_text [mkFrame (Some v) ""; mkFrame None p])
    with (unlines [event_line v; data_line ""; ""; data_line p; ""]).
  rewrite split_unlines.
  - rewrite removelast_last.
    cbn [for_chunks startsWith event_line data_line append Ascii.eqb
           Bool.eqb andb slice String.eqb truthy negb].
    rewrite (truthy_nonblank p Hne), Hd. reflexivity.
  - repeat constructor; cbn; assumption.
Qed.

Lemma unlines_crlf_unlines (ls : list string) :
  unlines_crlf ls = unlines (map (fun line => line ++ String CR "")%string ls).
Proof.
  induction ls as [|line ls IH]; [reflexivity|].
  cbn [unlines_crlf unlines fold_right map].
  fold (unlines_crlf ls). fold (unlines (map (fun l => l ++ String CR "")%string ls)).
  rewrite IH, append_assoc. reflexivity.
Qed.

(** A stream whose lines end with a carriage return and a newline gives no
    chunk, however it is cut into reads: after the split on newlines every
    line still ends with the carriage return, so no line is the empty
    line that ends a frame. *)
Theorem crlf_stream_yields_nothing (ls rs : list string) :
  Forall (fun line => no_LF line = true) ls ->
  text_of rs = unlines_crlf ls ->
  while_chunks (map ReadValue rs) "" = ([], EndNormal).
Proof.
  intros Hls Htext. apply while_chunks_nonblank. cbn [append].
  rewrite Htext, unlines_crlf_unlines, split_unlines.
  - rewrite removelast_last. apply Forall_map.
    apply Forall_forall. intros line _.
    destruct line; discriminate.
  - apply Forall_map. eapply Forall_impl; [|exact Hls].
    intros line Hline. unfold no_LF in *.
    rewrite string_forall_append, Hline. reflexivity.
Qed.

(** Where the chunks of one read come from. *)
Lemma for_chunks_provenance (ls : list string) :
  forall ev dt c,
    In c (for_chunks ls ev dt) ->
    event c <> ""
    /\ (event c = "message" \/ event c = ev
        \/ exists line, In line ls /\ startsWith "event: " line = true
                        /\ event c = trim (slice 7 line))
    /\ ((dt <> "" /\ JSON_parse dt = Normal (data c))
        \/ exists line, In line ls /\ startsWith "data: " line = true
                        /\ slice 6 line <> ""
                        /\ JSON_parse (slice 6 line) = Normal (data c)).
Proof.
  induction ls as [|line ls IH]; intros ev dt c Hin; [contradiction|].
  cbn [for_chunks] in Hin.
  assert (Hlater : forall ev' dt',
             In c (for_chunks ls ev' dt') ->
             (ev' = "" \/ ev' = ev
              \/ (startsWith "event: " line = true /\ ev' = trim (slice 7 line))) ->
             (dt' = "" \/ dt' = dt
              \/ (startsWith "data: " line = true /\ dt' = slice 6 line)) ->
             event c <> ""
             /\ (event c = "message" \/ event c = ev
                 \/ exists l, In l (line :: ls) /\ startsWith "event: " l = true
                              /\ event c = trim (slice 7 l))
             /\ ((dt <> "" /\ JSON_parse dt = Normal (data c))
                 \/ exists l, In l (line :: ls) /\ startsWith "data: " l = true
                              /\ slice 6 l <> ""
                              /\ JSON_parse (slice 6 l) = Normal (data c))).
  { intros ev' dt' Hc Hev Hdt.
    destruct (IH ev' dt' c Hc) as (Hne & He & Hd).
    split; [exact Hne|]. split.
    - destruct He as [He | [He | (l & Hl & Hs & He)]].
      + left. exact He.
      + destruct Hev as [-> | [-> | [Hs ->]]].
        * congruence.
        * right. left. exact He.
        * right. right. exists line. cbn [In]. auto.
      + right. right. exists l. cbn [In]. auto.
    - destruct Hd as [[Hd1 Hd2] | (l & Hl & Hs & Hd1 & Hd2)].
      + destruct Hdt as [-> | [-> | [Hs ->]]].
        * congruence.
        * left. auto.
        * right. exists line. cbn [In]. auto.
      + right. exists l. cbn [In]. auto. }
  destruct (startsWith "event: " line) eqn:Ee.
  { apply (Hlater _ _ Hin); auto. }
  destruct (startsWith "data: " line) eqn:Ed.
  { apply (Hlater _ _ Hin); auto. }
  destruct ((line =? "") && truthy dt) eqn:Eb.
  - apply andb_prop in Eb as [_ Et].
    assert (Hdt : dt <> "").
    { intros ->. discriminate Et. }
    destruct (JSON_parse dt) as [d|x] eqn:Ep.
    + destruct Hin as [<- | Hin].
      * cbn [event data]. split; [|split].
        -- unfold or_else. destruct (truthy ev) eqn:Eev; [|discriminate].
           intros ->. discriminate Eev.
        -- unfold or_else. destruct (truthy ev); auto.
        -- left. auto.
      * apply (Hlater _ _ Hin); auto.
    + apply (Hlater _ _ Hin); auto.
  - apply (Hlater _ _ Hin); auto.
Qed.

(** Nothing in a chunk is made up.  Whatever the reads are, every chunk
    the stream gives has a name that is not empty: "message", or the
    trimmed value of an [event: ] line of the stream; and its data is the
    parsed payload, not empty, of a [data: ] line of the stream. *)
Theorem chunks_come_from_lines (rs : list string) :
  forall buf c,
    In c (fst (while_chunks (map ReadValue rs) buf)) ->
    event c <> ""
    /\ (event c = "message"
        \/ exists line,
             In line (removelast (split (buf ++ text_of rs)))
             /\ startsWith "event: " line = true
             /\ event c = trim (slice 7 line))
    /\ (exists line,
          In line (removelast (split (buf ++ text_of rs)))
          /\ startsWith "data: " line = true
          /\ slice 6 line <> ""
          /\ JSON_parse (slice 6 line) = Normal (data c)).
Proof.
  induction rs as [|t rs IH]; intros buf c Hin; [contradiction|].
  cbn [map] in Hin. rewrite while_chunks_step in Hin. cbn [fst] in Hin.
  cbn [text_of fold_right]. fold (text_of rs).
  rewrite <- append_assoc.
  destruct (split_append (buf ++ t) (text_of rs)) as [E _]. rewrite E.
  apply in_app_or in Hin as [Hin | Hin].
  - destruct (for_chunks_provenance _ _ _ _ Hin) as (Hne & He & Hd).
    split; [exact Hne|]. split.
    + destruct He as [He | [He | (l & Hl & Hs & He)]].
      * left. exact He.
      * congruence.
      * right. exists l. split; [apply in_or_app; left; exact Hl|auto].
    + destruct Hd as [[Hd _] | (l & Hl & Hd)]; [congruence|].
      exists l. split; [apply in_or_app; left; exact Hl|exact Hd].
  - destruct (IH _ _ Hin) as (Hne & He & (l & Hl & Hd)).
    split; [exact Hne|]. split.
    + destruct He as [He | (l' & Hl' & He)]; [left; exact He|].
      right. exists l'. split; [apply in_or_app; right; exact Hl'|exact He].
    + exists l. split; [apply in_or_app; right; exact Hl|exact Hd].
Qed.

(** The chunks of one read are at most as many as its blank lines. *)
Lemma for_chunks_bound (ls : list string) :
  forall ev dt,
    length (for_chunks ls ev dt) <= count_occ string_dec ls "".
Proof.
  induction ls as [|line ls IH]; intros ev dt; [apply le_n|].
  cbn [for_chunks count_occ].
  destruct (string_dec line "") as [->|Hne].
  - cbn [startsWith andb String.eqb].
    destruct (truthy dt); cbn [andb].
    + destruct (JSON_parse dt); cbn [length]; specialize (IH "" ""); lia.
    + specialize (IH ev dt). lia.
  - rewrite (nonblank_eqb line Hne). cbn [andb].
    destruct (startsWith "event: " line); [apply IH|].
    destruct (startsWith "data: " line); apply IH.
Qed.

(** A stream never gives more chunks than it holds blank lines. *)
Theorem chunks_bounded_by_blank_lines (rs : list string) :
  forall buf,
    length (fst (while_chunks (map ReadValue rs) buf))
    <= count_occ string_dec (removelast (split (buf ++ text_of rs))) "".
Proof.
  induction rs as [|t rs IH]; intros buf; [apply Nat.le_0_l|].
  cbn [map]. rewrite while_chunks_step. cbn [fst].
  cbn [text_of fold_right]. fold (text_of rs).
  rewrite <- append_assoc.
  destruct (split_append (buf ++ t) (text_of rs)) as [E _]. rewrite E.
  rewrite length_app, count_occ_app.
  pose proof (for_chunks_bound (removelast (split (buf ++ t))) "" "").
  specialize (IH (last (split (buf ++ t)) "")). lia.
Qed.

(** A read that rejects in the middle of a stream: the consumer gets the
    chunks decoded from the reads before it, then the exception of the
    read; the reader is released, and what the stream would have brought
    afterwards is never read. *)
Theorem rejected_read_ends_stream (threadId runId : string)
    (options : option join_options) (w : world) (r : response)
    (rs : list string) (e : exn) (more : list read_result) :
  backend (joinStream_request threadId runId options) = Normal r ->
  ok r = true ->
  body r = Some (map ReadValue rs ++ ReadRejects e :: more) ->
  consume (SuspendedStart threadId runId options) w
          (fst (while_chunks (map ReadValue rs) ""))
          (EndThrow e)
          (releaseLock (getReader (sent (joinStream_request threadId runId options) w))).
Proof.
  intros Hb Hok Hbody.
  pose proof (joinStream_consume threadId runId options w) as H.
  unfold joinStream_chunks, joinStream_world in H.
  rewrite Hb, Hok, Hbody in H. cbn [negb] in H.
  rewrite while_chunks_app in H. cbn [while_chunks fst snd] in H.
  rewrite app_nil_r in H. exact H.
Qed.

(** ** More on the requests *)

(** [getState] and [runs.list] send one request each, a GET with no
    headers and no body, under the normalised base URL and with the thread
    id percent-encoded, whatever the backend answers; they touch no
    reader. *)
Theorem getState_and_list_send_one_GET (threadId : string) (w : world) :
  snd (getState threadId w)
  = mkWorld (requests w
               ++ [mkRequest "GET"
                     (replace_trailing_slash baseUrl ++ "/threads/"
                        ++ encodeURIComponent threadId ++ "/state")
                     [] None])
            (getReader_calls w) (releaseLock_calls w)
  /\ snd (list_ threadId w)
     = mkWorld (requests w
                  ++ [mkRequest "GET"
                        (replace_trailing_slash baseUrl ++ "/runs?thread_id="
                           ++ encodeURIComponent threadId)
                        [] None])
               (getReader_calls w) (releaseLock_calls w).
Proof.
  unfold getState, list_, fetch. split.
  - destruct (backend (getState_request threadId)) as [r|x]; [|reflexivity].
    destruct (negb (ok r)); [|reflexivity].
    destruct (status r =? 404)%Z; reflexivity.
  - destruct (backend (list_request threadId)) as [r|x]; [|reflexivity].
    destruct (negb (ok r)); reflexivity.
Qed.

Lemma body_text_values (texts : list string) :
  body_text (map ReadValue texts) = Normal (text_of texts).
Proof.
  induction texts as [|t texts IH]; [reflexivity|].
  cbn [map body_text]. rewrite IH. reflexivity.
Qed.

Lemma body_text_rejected (texts : list string) (e : exn)
    (more : list read_result) :
  body_text (map ReadValue texts ++ ReadRejects e :: more) = Throw e.
Proof.
  induction texts as [|t texts IH]; [reflexivity|].
  cbn [map app body_text]. rewrite IH. reflexivity.
Qed.

(** A body is made of reads that all resolve, or of some that do and then
    a first one that rejects. *)
Lemma reads_shape (rd : list read_result) :
  (exists texts, rd = map ReadValue texts)
  \/ (exists texts e more, rd = map ReadValue texts ++ ReadRejects e :: more).
Proof.
  induction rd as [|x rd IH].
  - left. exists []. reflexivity.
  - destruct x as [t|e].
    + destruct IH as [[texts ->] | (texts & e & more & ->)].
      * left. exists (t :: texts). reflexivity.
      * right. exists (t :: texts), e, more. reflexivity.
    + right. exists [], e, rd. reflexivity.
Qed.

(** [response.json()] rejects with [e] in these cases and in no other. *)
Lemma Response_json_rejects (r : response) (e : exn) :
  Response_json r = Throw e <-> json_rejects r e.
Proof.
  unfold Response_json, json_rejects. destruct (body r) as [rd|]; [|tauto].
  split.
  - intros H. destruct (reads_shape rd) as [[texts ->] | (texts & x & more & ->)].
    + left. exists texts. split; [reflexivity|].
      rewrite body_text_values in H. exact H.
    + right. rewrite body_text_rejected in H. injection H as ->.
      exists texts, more. reflexivity.
  - intros [(texts & -> & H) | (texts & more & ->)].
    + rewrite body_text_values. exact H.
    + rewrite body_text_rejected. reflexivity.
Qed.

(** What is not a status.  When [fetch] itself rejects, the three
    request/response operations throw that very exception.  When the
    response is a success and reading it as JSON fails (no body, or a body
    whose whole text, in however many reads it arrives, does not parse, or
    a body one of whose reads rejects), they throw that very exception
    too, where [joinStream] would skip a payload that does not parse. *)
Theorem fetch_and_body_failures_surface (threadId : string)
    (options : option (history_options number)) (w : world) (e : exn) :
  (backend (getHistory_request threadId options) = Throw e ->
   fst (getHistory threadId options w) = Throw e)
  /\ (backend (getState_request threadId) = Throw e ->
      fst (getState threadId w) = Throw e)
  /\ (backend (list_request threadId) = Throw e ->
      fst (list_ threadId w) = Throw e)
  /\ (forall r,
        ok r = true ->
        json_rejects r e ->
        (backend (getHistory_request threadId options) = Normal r ->
         fst (getHistory threadId options w) = Throw e)
        /\ (backend (getState_request threadId) = Normal r ->
            fst (getState threadId w) = Throw e)
        /\ (backend (list_request threadId) = Normal r ->
            fst (list_ threadId w) = Throw e)).
Proof.
  unfold getHistory, getState, list_, fetch.
  split; [|split; [|split]].
  - intros ->. reflexivity.
  - intros ->. reflexivity.
  - intros ->. reflexivity.
  - intros r Hok Hrej. apply Response_json_rejects in Hrej.
    split; [|split]; intros ->; rewrite Hok; cbn [negb fst]; exact Hrej.
Qed.

Lemma while_true_shape (rd : list read_result) :
  forall buf w r g w',
    while_true rd buf w = (r, g, w') ->
    requests w' = requests w
    /\ (g = Completed \/ exists s, g = SuspendedYield s).
Proof.
  induction rd as [|x rd IH]; intros buf w r g w' H.
  - cbn in H. inversion H; subst. auto.
  - destruct x as [text|x].
    + rewrite while_true_step in H.
      destruct (for_of (removelast (split (buf ++ text))) "" "").
      * inversion H; subst. eauto.
      * eapply IH; eassumption.
    + cbn in H. inversion H; subst. auto.
Qed.

(** The first [next()] sends the join request, whatever comes back. *)
Lemma start_requests (threadId runId : string)
    (options : option join_options) (w : world) r g w' :
  start threadId runId options w = (r, g, w') ->
  requests w' = requests w ++ [joinStream_request threadId runId options]
  /\ (g = Completed \/ exists s, g = SuspendedYield s).
Proof.
  unfold start, fetch. intros H.
  destruct (backend (joinStream_request threadId runId options)) as [rs|x].
  - destruct (negb (ok rs)).
    + inversion H; subst. auto.
    + destruct (body rs) as [rd|].
      * apply while_true_shape in H as [Hrq Hg]. split; [|exact Hg].
        rewrite Hrq. reflexivity.
      * inversion H; subst. auto.
  - inversion H; subst. auto.
Qed.

(** A generator that has started sends nothing more. *)
Lemma apply_op_started (o : op) (g : generator) (w : world) r g' w' :
  g = Completed \/ (exists s, g = SuspendedYield s) ->
  apply_op o g w = (r, g', w') ->
  requests w' = requests w
  /\ (g' = Completed \/ exists s, g' = SuspendedYield s).
Proof.
  assert (Hresume : forall s,
             resume s w = (r, g', w') ->
             requests w' = requests w
             /\ (g' = Completed \/ exists s', g' = SuspendedYield s')).
  { intros s Hs. unfold resume in Hs. destruct (for_of (lines s) "" "").
    - inversion Hs; subst. eauto.
    - eapply while_true_shape; eassumption. }
  intros [-> | [s ->]] H; destruct o;
    cbn [apply_op gen_next gen_return gen_throw] in H;
    try (inversion H; subst; auto; fail);
    eapply Hresume; eassumption.
Qed.

Lemma run_ops_started (ops : list op) :
  forall g w,
    g = Completed \/ (exists s, g = SuspendedYield s) ->
    requests (snd (run_ops ops g w)) = requests w.
Proof.
  induction ops as [|o ops IH]; intros g w Hg; [reflexivity|].
  cbn [run_ops]. destruct (apply_op o g w) as [[r g'] w'] eqn:E.
  destruct (apply_op_started _ _ _ _ _ _ Hg E) as [Hrq Hg'].
  rewrite (IH _ _ Hg'). exact Hrq.
Qed.

(** The requests of a generator, for every sequence of requests to it.  A
    generator that was never asked, or was first returned or thrown into,
    has sent nothing, whatever is asked of it later.  A generator whose
    first request was [next()] has sent the join request, then, and
    nothing else since, whatever the backend answered, however long the
    stream and whatever the consumer asked for afterwards. *)
Theorem generator_sends_one_request (threadId runId : string)
    (options : option join_options) (w : world) (ops : list op) :
  requests (snd (run_ops ops (SuspendedStart threadId runId options) w))
  = match ops with
    | Next :: _ => requests w ++ [joinStream_request threadId runId options]
    | _ => requests w
    end.
Proof.
  destruct ops as [|o ops]; [reflexivity|].
  cbn [run_ops].
  destruct (apply_op o (SuspendedStart threadId runId options) w)
    as [[r g'] w'] eqn:E.
  destruct o; cbn [apply_op gen_next gen_return gen_throw] in E.
  - apply start_requests in E as [Hrq Hg].
    rewrite (run_ops_started ops _ _ Hg). exact Hrq.
  - inversion E; subst. apply run_ops_started. auto.
  - inversion E; subst. apply run_ops_started. auto.
Qed.

(** ** The decode buffer *)

Lemma split_no_LF (s : string) :
  Forall (fun line => no_LF line = true) (split s).
Proof.
  induction s as [|c s IH]; [repeat constructor|].
  destruct (Ascii.eqb c LF) eqn:Ec.
  - apply Ascii.eqb_eq in Ec; subst c. rewrite split_cons_LF.
    constructor; [reflexivity|exact IH].
  - rewrite split_cons_other by assumption.
    pose proof (split_nonempty s) as Hs.
    destruct (split s) as [|h t]; [contradiction|].
    inversion IH as [|? ? Hh Ht]; subst. cbn [hd tl].
    constructor; [|exact Ht].
    unfold no_LF in *. cbn [string_forall]. rewrite Ec, Hh. reflexivity.
Qed.

Lemma unlines_split (s : string) :
  (unlines (removelast (split s)) ++ last (split s) "")%string = s.
Proof.
  induction s as [|c s IH]; [reflexivity|].
  destruct (Ascii.eqb c LF) eqn:Ec.
  - apply Ascii.eqb_eq in Ec; subst c. rewrite split_cons_LF.
    rewrite removelast_cons, last_cons by apply split_nonempty.
    cbn [unlines fold_right]. fold (unlines (removelast (split s))).
    cbn [append newline]. rewrite IH. reflexivity.
  - rewrite split_cons_other by assumption.
    pose proof (split_nonempty s) as Hs.
    destruct (split s) as [|h t]; [contradiction|]. cbn [hd tl].
    destruct t as [|h2 t2].
    + cbn in IH |- *. rewrite IH. reflexivity.
    + rewrite (removelast_cons h (h2 :: t2)) in IH by discriminate.
      rewrite (last_cons h "" (h2 :: t2)) in IH by discriminate.
      rewrite (removelast_cons (String c h) (h2 :: t2)) by discriminate.
      rewrite (last_cons (String c h) "" (h2 :: t2)) by discriminate.
      cbn [unlines fold_right] in IH |- *.
      fold (unlines (removelast (h2 :: t2))) in IH |- *.
      cbn [append]. rewrite IH. reflexivity.
Qed.

Lemma last_Forall {A : Type} (P : A -> Prop) (l : list A) (d : A) :
  Forall P l -> P d -> P (last l d).
Proof.
  induction 1 as [|x l Hx Hl IH]; intros Hd; [exact Hd|].
  destruct l as [|y l]; [exact Hx|]. apply IH. exact Hd.
Qed.

Lemma split_single (s : string) : no_LF s = true -> split s = [s].
Proof.
  induction s as [|c s IH]; intros H; [reflexivity|].
  unfold no_LF in H. cbn [string_forall] in H.
  apply andb_prop in H as [Hc H]. apply negb_true_iff in Hc.
  rewrite split_cons_other by assumption.
  rewrite (IH H). reflexivity.
Qed.

Lemma open_line_no_LF (s : string) : no_LF (last (split s) "") = true.
Proof.
  apply (last_Forall (fun line => no_LF line = true));
    [apply split_no_LF|reflexivity].
Qed.

Lemma lines_seen_text (rs : list string) :
  forall buf,
    no_LF buf = true ->
    lines_seen buf rs = removelast (split (buf ++ text_of rs)).
Proof.
  induction rs as [|t rs IH]; intros buf Hbuf.
  - cbn [lines_seen text_of fold_right].
    rewrite append_nil_r, (split_single buf Hbuf). reflexivity.
  - cbn [lines_seen text_of fold_right]. fold (text_of rs).
    rewrite IH by apply open_line_no_LF.
    rewrite <- append_assoc.
    destruct (split_append (buf ++ t) (text_of rs)) as [E _].
    symmetry. exact E.
Qed.

(** Buffering loses nothing and holds nothing back.  After any reads, the
    decode buffer is the text received since the last newline: it holds no
    newline itself, no line given to the loop holds one, and the lines
    given to the loop so far, each with its newline, followed by the buffer
    are exactly the text received. *)
Theorem buffer_is_the_open_line (rs : list string) :
  no_LF (buffer_after "" rs) = true
  /\ Forall (fun line => no_LF line = true) (lines_seen "" rs)
  /\ (unlines (lines_seen "" rs) ++ buffer_after "" rs)%string = text_of rs.
Proof.
  rewrite buffer_after_text by reflexivity.
  rewrite lines_seen_text by reflexivity. cbn [append].
  pose proof (split_no_LF (text_of rs)) as H.
  split; [|split].
  - apply open_line_no_LF.
  - pose proof (split_nonempty (text_of rs)) as Hne.
    rewrite (app_removelast_last "" Hne) in H.
    apply Forall_app in H as [H _]. exact H.
  - apply unlines_split.
Qed.

(** ** Identifiers in URLs *)

Lemma append_cancel_l (a x y : string) : (a ++ x = a ++ y)%string -> x = y.
Proof.
  induction a as [|c a IH]; cbn [append]; intros H; [exact H|].
  injection H as H. exact (IH H).
Qed.

Lemma unpercent_percent (c : ascii) (r : string) :
  unpercent (percent c ++ r) = c.
Proof.
  destruct c as [[] [] [] [] [] [] [] []]; reflexivity.
Qed.

Lemma percent_cancel (c1 c2 : ascii) (r1 r2 : string) :
  (percent c1 ++ r1 = percent c2 ++ r2)%string -> c1 = c2 /\ r1 = r2.
Proof.
  intros H.
  assert (E : c1 = c2).
  { rewrite <- (unpercent_percent c1 r1), <- (unpercent_percent c2 r2), H.
    reflexivity. }
  subst c2. split; [reflexivity|]. exact (append_cancel_l _ _ _ H).
Qed.

Lemma percent_head (c : ascii) (r : string) :
  exists t, (percent c ++ r)%string = String "%" t.
Proof. unfold percent. cbn [append]. eauto. Qed.

(** Percent-encoding loses nothing: two texts with the same encoding are
    the same text. *)
Lemma encodeURIComponent_injective (s1 : string) :
  forall s2, encodeURIComponent s1 = encodeURIComponent s2 -> s1 = s2.
Proof.
  induction s1 as [|c1 s1 IH]; intros [|c2 s2] H; cbn [encodeURIComponent] in H.
  - reflexivity.
  - destruct (unreserved c2); [discriminate H|].
    destruct (percent_head c2 (encodeURIComponent s2)) as [t E].
    rewrite E in H. discriminate H.
  - destruct (unreserved c1); [discriminate H|].
    destruct (percent_head c1 (encodeURIComponent s1)) as [t E].
    rewrite E in H. discriminate H.
  - destruct (unreserved c1) eqn:E1; destruct (unreserved c2) eqn:E2.
    + injection H as -> H. f_equal. exact (IH _ H).
    + destruct (percent_head c2 (encodeURIComponent s2)) as [t E].
      rewrite E in H. injection H as -> _. discriminate E1.
    + destruct (percent_head c1 (encodeURIComponent s1)) as [t E].
      rewrite E in H. injection H as <- _. discriminate E2.
    + apply percent_cancel in H as [-> H]. f_equal. exact (IH _ H).
Qed.

(** Two texts without a slash, each followed by a slash and more: equal
    wholes have equal parts. *)
Lemma cut_at_slash (a1 : string) :
  forall a2 x1 x2,
    string_forall segment_char a1 = true ->
    string_forall segment_char a2 = true ->
    (a1 ++ String "/" x1 = a2 ++ String "/" x2)%string ->
    a1 = a2 /\ x1 = x2.
Proof.
  induction a1 as [|c1 a1 IH]; intros [|c2 a2] x1 x2 H1 H2 H;
    cbn [append string_forall] in H, H1, H2.
  - injection H as H. auto.
  - injection H as <- _. discriminate H2.
  - injection H as -> _. discriminate H1.
  - injection H as -> H.
    apply andb_prop in H1 as [_ H1]. apply andb_prop in H2 as [_ H2].
    destruct (IH _ _ _ H1 H2 H) as [-> ->]. auto.
Qed.

(** Different threads are addressed by different requests: the state,
    history and run-list requests of two thread ids that differ are never
    the same request, whatever characters the ids hold and whatever the
    limits asked for. *)
Theorem distinct_threads_distinct_requests (t1 t2 : string) :
  t1 <> t2 ->
  getState_request t1 <> getState_request t2
  /\ list_request t1 <> list_request t2
  /\ (forall o1 o2, getHistory_request t1 o1 <> getHistory_request t2 o2).
Proof.
  intros Hne. split; [|split; [|intros o1 o2]]; intros H; apply Hne;
    unfold getState_request, list_request, getHistory_request, GET in H;
    injection H as H; apply append_cancel_l in H;
    cbn [append] in H; repeat (injection H as H).
  - apply encodeURIComponent_injective.
    change (encodeURIComponent t1 ++ String "/" "state"
            = encodeURIComponent t2 ++ String "/" "state")%string in H.
    apply cut_at_slash in H as [H _]; auto using encodeURIComponent_segment.
  - apply encodeURIComponent_injective. exact H.
  - apply encodeURIComponent_injective.
    match type of H with
    | (_ ++ String "/" ?x1 = _ ++ String "/" ?x2)%string =>
        apply (cut_at_slash _ _ x1 x2) in H as [H _];
          auto using encodeURIComponent_segment
    end.
Qed.

(** The join request names its run and its thread without ambiguity: two
    calls whose run ids or thread ids differ never send the same request,
    since neither encoded id can hold the slash or the question mark that
    separates them. *)
Theorem join_request_identifies_run_and_thread (t1 r1 t2 r2 : string)
    (o1 o2 : option join_options) :
  (r1, t1) <> (r2, t2) ->
  joinStream_request t1 r1 o1 <> joinStream_request t2 r2 o2.
Proof.
  intros Hne H. apply Hne.
  unfold joinStream_request in H. injection H as H _.
  apply append_cancel_l in H. cbn [append] in H.
  repeat (injection H as H).
  match type of H with
  | (_ ++ String "/" ?x1 = _ ++ String "/" ?x2)%string =>
      apply (cut_at_slash _ _ x1 x2) in H as [Hr Ht];
        auto using encodeURIComponent_segment
  end.
  apply encodeURIComponent_injective in Hr.
  cbn [append] in Ht. repeat (injection Ht as Ht).
  apply encodeURIComponent_injective in Ht.
  congruence.
Qed.

End Client.

(** ** The client at work *)

Example trim_ex : trim "  run  " = "run".
Proof. reflexivity. Qed.

Example split_ex : split ("a" ++ newline ++ newline ++ "b") = ["a"; ""; "b"].
Proof. reflexivity. Qed.

Example encode_ex : encodeURIComponent "a b/c" = "a%20b%2Fc".
Proof. reflexivity. Qed.

Example number_ex : safe_integer_toString safe_100 = "100".
Proof. reflexivity. Qed.

Example slash_ex : replace_trailing_slash "http://h:1/" = "http://h:1".
Proof. reflexivity. Qed.

Example parse_atoms_ex :
  JSON_parse_atoms "{}" = Normal (VObject [])
  /\ JSON_parse_atoms "2" = Normal (VNumber "2")
  /\ JSON_parse_atoms "{oops" = Throw (mkExn "SyntaxError" "Unexpected token").
Proof. repeat split. Qed.

(** The three ways out of the decode loop, each with the reader obtained
    once and released once: the stream ends, a read rejects, the consumer
    returns early. *)
Example exit_paths :
  let run rd ops :=
    run_ops "http://localhost:8123" (backend_streaming rd) JSON_parse_atoms
            JSON_stringify_plain ops (SuspendedStart "thread-1" "run-1" None)
            world0 in
  let frames := ReadValue (unlines ["data: 1"; ""; "data: 2"; ""]) in
  (let '(g, w) := run [frames] [Next; Next; Next] in
   (g, getReader_calls w, releaseLock_calls w)) = (Completed, 1, 1)
  /\ (let '(g, w) := run [frames; ReadRejects (mkExn "TypeError" "network error")]
                        [Next; Next; Next] in
      (g, getReader_calls w, releaseLock_calls w)) = (Completed, 1, 1)
  /\ (let '(g, w) := run [frames] [Next; Return; Next] in
      (g, getReader_calls w, releaseLock_calls w)) = (Completed, 1, 1).
Proof. repeat split. Qed.

(** C1.  The code does not decode a split stream as it decodes the whole:
    the frame [data: {}] followed by its blank line gives one chunk when it
    arrives in one read, and none when the read boundary falls between the
    data line and the blank line, because the accumulators are declared
    inside the [while] loop and start empty at every read. *)
Theorem frame_split_across_reads_is_lost :
  (exists w,
      consume "http://localhost:8123"
        (backend_streaming [ReadValue (unlines ["data: {}"; ""])])
        JSON_parse_atoms JSON_stringify_plain
        (SuspendedStart "thread-1" "run-1" None) world0
        [mkChunk "message" (VObject [])] EndNormal w)
  /\ (exists w,
         consume "http://localhost:8123"
           (backend_streaming [ReadValue (unlines ["data: {}"]);
                               ReadValue (unlines [""])])
           JSON_parse_atoms JSON_stringify_plain
           (SuspendedStart "thread-1" "run-1" None) world0
           [] EndNormal w).
Proof.
  split; eexists.
  - exact (joinStream_consume "http://localhost:8123"
             (backend_streaming [ReadValue (unlines ["data: {}"; ""])])
             JSON_parse_atoms JSON_stringify_plain "thread-1" "run-1" None world0).
  - exact (joinStream_consume "http://localhost:8123"
             (backend_streaming [ReadValue (unlines ["data: {}"]);
                                 ReadValue (unlines [""])])
             JSON_parse_atoms JSON_stringify_plain "thread-1" "run-1" None world0).
Qed.

(** C5.  Two frames that parse, [data: 1] and [data: 2], with the frame
    [data: {oops] between them.  In one read the stream gives the two
    chunks, in order, and ends normally.  When the first read stops after
    the first data line, the same stream gives one chunk only: the frame
    that is lost is a well-formed one, cut by the read boundary. *)
Theorem malformed_frame_stream_cut_in_a_frame :
  (exists w,
      consume "http://localhost:8123"
        (backend_streaming
           [ReadValue (unlines ["data: 1"; ""; "data: {oops"; ""; "data: 2"; ""])])
        JSON_parse_atoms JSON_stringify_plain
        (SuspendedStart "thread-1" "run-1" None) world0
        [mkChunk "message" (VNumber "1"); mkChunk "message" (VNumber "2")]
        EndNormal w)
  /\ (exists w,
         consume "http://localhost:8123"
           (backend_streaming
              [ReadValue (unlines ["data: 1"]);
               ReadValue (unlines [""; "data: {oops"; ""; "data: 2"; ""])])
           JSON_parse_atoms JSON_stringify_plain
           (SuspendedStart "thread-1" "run-1" None) world0
           [mkChunk "message" (VNumber "2")] EndNormal w).
Proof.
  split; eexists.
  - exact (joinStream_consume "http://localhost:8123"
             (backend_streaming
                [ReadValue (unlines ["data: 1"; ""; "data: {oops"; ""; "data: 2"; ""])])
             JSON_parse_atoms JSON_stringify_plain "thread-1" "run-1" None world0).
  - exact (joinStream_consume "http://localhost:8123"
             (backend_streaming
                [ReadValue (unlines ["data: 1"]);
                 ReadValue (unlines [""; "data: {oops"; ""; "data: 2"; ""])])
             JSON_parse_atoms JSON_stringify_plain "thread-1" "run-1" None world0).
Qed.

(** A read boundary inside a line does no harm: the open line waits in the
    buffer. *)
Example mid_line_split_ex :
  while_chunks JSON_parse_atoms
    [ReadValue "da"; ReadValue (unlines ["ta: {}"; ""])] ""
  = ([mkChunk "message" (VObject [])], EndNormal).
Proof. reflexivity. Qed.

(** C7 does not hold as it is written: the event of a chunk is not always
    the trimmed value of the frame's event line, since a value of white
    space only gives "message". *)
Lemma blank_event_value_counterexample :
  ~ (forall (v p : string) (d : value),
        JSON_parse_atoms p = Normal d ->
        for_chunks JSON_parse_atoms [event_line v; data_line p; ""] "" ""
        = [mkChunk (trim v) d]).
Proof.
  intros H. specialize (H " " "{}" (VObject []) eq_refl).
  vm_compute in H. discriminate H.
Qed.

Lemma getState_not_found_is_empty_witness :
  getState "http://localhost:8123/" (backend_status 404 "Not Found")
           JSON_parse_atoms "thread 1" world0
  = (Normal (VObject [("values", VObject [("messages", VArray [])]);
                      ("next", VArray []);
                      ("tasks", VArray [])]),
     mkWorld [GET "http://localhost:8123/threads/thread%201/state"] 0 0).
Proof.
  apply (getState_not_found_is_empty "http://localhost:8123/"
           (backend_status 404 "Not Found") JSON_parse_atoms "thread 1" world0
           (mkResponse 404 "Not Found" None)); reflexivity.
Defined.

Lemma non_success_status_throws_witness :
  fst (getHistory "http://localhost:8123" (backend_status 500 "Internal Server Error")
                  JSON_parse_atoms safe_integer safe_integer_toString safe_100
                  "t1" None world0)
  = Throw (Error_ "Failed to fetch history: Internal Server Error")
  /\ fst (list_ "http://localhost:8123" (backend_status 500 "Internal Server Error")
               JSON_parse_atoms "t1" world0)
     = Throw (Error_ "Failed to list runs: Internal Server Error")
  /\ fst (fst (gen_next "http://localhost:8123"
                        (backend_status 500 "Internal Server Error")
                        JSON_parse_atoms JSON_stringify_plain
                        (SuspendedStart "t1" "r1" None) world0))
     = Raised (Error_ "Failed to join stream: Internal Server Error")
  /\ fst (getState "http://localhost:8123" (backend_status 500 "Internal Server Error")
                  JSON_parse_atoms "t1" world0)
     = Throw (Error_ "Failed to fetch state: Internal Server Error").
Proof.
  destruct (non_success_status_throws "http://localhost:8123"
              (backend_status 500 "Internal Server Error")
              JSON_parse_atoms JSON_stringify_plain
              safe_integer safe_integer_toString safe_100
              "t1" "r1" None None world0
              (mkResponse 500 "Internal Server Error" None) eq_refl)
    as (H1 & H2 & H3 & H4).
  split; [|split; [|split]].
  - rewrite (H1 eq_refl). reflexivity.
  - rewrite (H2 eq_refl). reflexivity.
  - destruct (H3 eq_refl) as [E _]. rewrite E. reflexivity.
  - rewrite (H4 eq_refl); [reflexivity|discriminate].
Defined.

Lemma joinStream_without_body_is_empty_witness :
  consume "http://localhost:8123" (backend_status 204 "No Content")
          JSON_parse_atoms JSON_stringify_plain
          (SuspendedStart "t1" "r1" None) world0 [] EndNormal
          (sent (joinStream_request "http://localhost:8123" JSON_stringify_plain
                                    "t1" "r1" None) world0).
Proof.
  apply (joinStream_without_body_is_empty "http://localhost:8123"
           (backend_status 204 "No Content") JSON_parse_atoms
           JSON_stringify_plain "t1" "r1" None world0
           (mkResponse 204 "No Content" None)); reflexivity.
Defined.

Lemma last_data_line_wins_witness :
  for_of JSON_parse_atoms
    [event_line "values"; data_line "1"; data_line "2"; ": keep-alive"; ""] "" ""
  = ForYield (mkChunk "values" (VNumber "2")) [] "values" "2".
Proof.
  apply (last_data_line_wins JSON_parse_atoms
           [event_line "values"] [] [": keep-alive"] [] "1" "2" "" "").
  - constructor; [discriminate|]. constructor; [discriminate|]. constructor.
  - constructor; [reflexivity|]. constructor.
Defined.

Lemma frame_event_name_witness :
  exists ev,
    for_of JSON_parse_atoms [event_line " values "; data_line "{}"; ""] "" ""
    = ForYield (mkChunk ev (VObject [])) [] "values" "{}"
    /\ ev = "values".
Proof.
  destruct (frame_event_name JSON_parse_atoms
              [event_line " values "; data_line "{}"] [] "{}" (VObject []))
    as (ev & E & _ & Hev).
  - repeat constructor; discriminate.
  - reflexivity.
  - discriminate.
  - reflexivity.
  - exists ev. split; [exact E|].
    apply (Hev [] " values " [data_line "{}"]); [reflexivity|].
    repeat constructor.
Defined.

Lemma trailing_incomplete_frame_discarded_witness :
  while_chunks JSON_parse_atoms
    [ReadValue (unlines ["data: 1"; ""]); ReadValue "data: 2"; ReadValue newline] ""
  = ([mkChunk "message" (VNumber "1")], EndNormal).
Proof.
  transitivity
    (while_chunks JSON_parse_atoms
       (map ReadValue [unlines ["data: 1"; ""]] ++ [ReadValue ""]) "");
    [|reflexivity].
  apply (trailing_incomplete_frame_discarded JSON_parse_atoms
           [unlines ["data: 1"; ""]] [newline] "" "data: 2").
  - right. exists (unlines ["data: 1"]). reflexivity.
  - repeat constructor; discriminate.
Defined.

(** ** More of the client at work *)

Lemma append_slash_next (b : string) :
  exists c r, (b ++ "/")%string = String c r.
Proof. destruct b as [|c b]; cbn [append]; eauto. Qed.

Lemma replace_trailing_slash_added (b : string) :
  replace_trailing_slash (b ++ "/") = b.
Proof.
  induction b as [|c b IH]; [reflexivity|].
  change (String c b ++ "/")%string with (String c (b ++ "/")).
  cbn [replace_trailing_slash].
  destruct (append_slash_next b) as (c' & r & E).
  rewrite E, <- E, IH. reflexivity.
Qed.

Lemma replace_trailing_slash_none (b : string) :
  (forall b', b <> (b' ++ "/")%string) -> replace_trailing_slash b = b.
Proof.
  induction b as [|c b IH]; intros H; [reflexivity|].
  cbn [replace_trailing_slash]. destruct b as [|c2 r].
  - destruct (Ascii.eqb_spec c "/") as [->|]; [|reflexivity].
    exfalso. apply (H ""). reflexivity.
  - f_equal. apply IH. intros b' E. apply (H (String c b')).
    cbn [append]. rewrite E. reflexivity.
Qed.

(** The base URL is normalised by taking one slash off its end and
    nothing else.  For every base [b], the client made for [b] with a slash
    added uses [b] itself, as it is written (a second slash at the end of
    [b] stays): its four requests are made of [b] followed by the path.
    And a base that does not end with a slash is used as it is written, so
    that the client made for it and the client made for it with a slash
    added send the same requests. *)
Theorem base_url_trailing_slash (b : string)
    (JSON_stringify : value -> string) (number : Type)
    (Number_toString : number -> string) (number_100 : number)
    (threadId runId : string)
    (hopts : option (history_options number)) (jopts : option join_options) :
  (replace_trailing_slash (b ++ "/") = b
   /\ req_url (getHistory_request (b ++ "/") number Number_toString number_100
                                  threadId hopts)
      = (b ++ "/threads/" ++ encodeURIComponent threadId ++ "/history?limit="
           ++ Number_toString
                (nullish match hopts with
                         | Some o => limit o
                         | None => None
                         end number_100))%string
   /\ req_url (getState_request (b ++ "/") threadId)
      = (b ++ "/threads/" ++ encodeURIComponent threadId ++ "/state")%string
   /\ req_url (list_request (b ++ "/") threadId)
      = (b ++ "/runs?thread_id=" ++ encodeURIComponent threadId)%string
   /\ req_url (joinStream_request (b ++ "/") JSON_stringify threadId runId jopts)
      = (b ++ "/runs/" ++ encodeURIComponent runId ++ "/join?thread_id="
           ++ encodeURIComponent threadId)%string)
  /\ ((forall b', b <> (b' ++ "/")%string) ->
      replace_trailing_slash b = b
      /\ getHistory_request (b ++ "/") number Number_toString number_100
                            threadId hopts
         = getHistory_request b number Number_toString number_100 threadId hopts
      /\ getState_request (b ++ "/") threadId = getState_request b threadId
      /\ list_request (b ++ "/") threadId = list_request b threadId
      /\ joinStream_request (b ++ "/") JSON_stringify threadId runId jopts
         = joinStream_request b JSON_stringify threadId runId jopts).
Proof.
  split.
  - unfold getHistory_request, getState_request, list_request,
      joinStream_request, url, GET. cbn [req_url].
    rewrite replace_trailing_slash_added. repeat split.
  - intros H.
    unfold getHistory_request, getState_request, list_request,
      joinStream_request, url.
    rewrite replace_trailing_slash_added, (replace_trailing_slash_none b H).
    repeat split.
Qed.

Lemma base_url_trailing_slash_witness :
  replace_trailing_slash ("http://h:1/" ++ "/") = "http://h:1/"
  /\ getState_request "http://h:1/" "t 1" = getState_request "http://h:1" "t 1"
  /\ req_url (getState_request "http://h:1/" "t 1")
     = "http://h:1/threads/t%201/state".
Proof.
  destruct (base_url_trailing_slash "http://h:1/" JSON_stringify_plain
              safe_integer safe_integer_toString safe_100
              "t 1" "r1" None None) as ((E & _) & _).
  destruct (base_url_trailing_slash "http://h:1" JSON_stringify_plain
              safe_integer safe_integer_toString safe_100
              "t 1" "r1" None None) as ((_ & _ & U & _) & H).
  destruct H as (_ & _ & G & _).
  - intros b' E'.
    repeat (destruct b' as [|? b']; cbn [append] in E';
            [discriminate E' | injection E' as _ E']).
    destruct b'; discriminate E'.
  - split; [exact E|]. split; [exact G|exact U].
Defined.

Lemma ignored_lines_change_nothing_witness :
  for_chunks JSON_parse_atoms
    (["event: values"]
       ++ [": keep-alive"; "id: 7"; "retry: 100"; "data:1"; "event:x"]
       ++ ["data: 2"; ""]) "" ""
  = [mkChunk "values" (VNumber "2")].
Proof.
  rewrite (ignored_lines_change_nothing JSON_parse_atoms).
  - reflexivity.
  - repeat (constructor; [reflexivity|]). constructor.
Defined.

Lemma cut_at_empty_accumulators_is_harmless_witness :
  while_chunks JSON_parse_atoms
    [ReadValue (unlines ["event: values"; "data: 1"; ""] ++ "da");
     ReadValue (unlines ["ta: 2"; ""])] ""
  = while_chunks JSON_parse_atoms
      [ReadValue (unlines ["event: values"; "data: 1"; ""; "data: 2"; ""])] "".
Proof.
  apply (cut_at_empty_accumulators_is_harmless JSON_parse_atoms
           (unlines ["event: values"; "data: 1"; ""] ++ "da")
           (unlines ["ta: 2"; ""]) "" []).
  reflexivity.
Defined.

Lemma whole_frames_decode_witness :
  while_chunks JSON_parse_atoms
    [ReadValue (frames_text [mkFrame (Some " values ") "1"; mkFrame None "{oops"]);
     ReadValue (frames_text [mkFrame None "2"])] ""
  = ([mkChunk "values" (VNumber "1"); mkChunk "message" (VNumber "2")], EndNormal).
Proof.
  apply (whole_frames_decode JSON_parse_atoms
           [[mkFrame (Some " values ") "1"; mkFrame None "{oops"];
            [mkFrame None "2"]]).
  - repeat constructor.
  - repeat (constructor; try discriminate).
Defined.

Lemma event_name_survives_empty_payload_witness :
  while_chunks JSON_parse_atoms
    [ReadValue (unlines ["event: updates"; "data: "; ""; "data: 1"; ""])] ""
  = ([mkChunk "updates" (VNumber "1")], EndNormal).
Proof.
  apply (event_name_survives_empty_payload JSON_parse_atoms "updates" "1"
           (VNumber "1")); try reflexivity.
  discriminate.
Defined.

Lemma crlf_stream_yields_nothing_witness :
  while_chunks JSON_parse_atoms
    (map ReadValue [unlines_crlf ["data: 1"]; unlines_crlf [""; "data: 2"; ""]]) ""
  = ([], EndNormal).
Proof.
  apply (crlf_stream_yields_nothing JSON_parse_atoms
           ["data: 1"; ""; "data: 2"; ""]).
  - repeat constructor.
  - reflexivity.
Defined.

Lemma chunks_come_from_lines_witness :
  event (mkChunk "values" (VNumber "1")) <> ""
  /\ exists line,
       In line ["event: values"; "data: 1"; ""]
       /\ startsWith "data: " line = true
       /\ JSON_parse_atoms (slice 6 line) = Normal (VNumber "1").
Proof.
  destruct (chunks_come_from_lines JSON_parse_atoms
              [unlines ["event: values"; "data: 1"; ""]] ""
              (mkChunk "values" (VNumber "1")))
    as (Hne & _ & (line & Hin & Hs & _ & Hp)).
  - left. reflexivity.
  - split; [exact Hne|]. exists line. split; [exact Hin|]. split; assumption.
Defined.

Lemma rejected_read_ends_stream_witness :
  consume "http://localhost:8123"
    (backend_streaming
       [ReadValue (unlines ["data: 1"; ""]);
        ReadRejects (mkExn "TypeError" "network error");
        ReadValue (unlines ["data: 2"; ""])])
    JSON_parse_atoms JSON_stringify_plain
    (SuspendedStart "thread-1" "run-1" None) world0
    [mkChunk "message" (VNumber "1")]
    (EndThrow (mkExn "TypeError" "network error"))
    (releaseLock
       (getReader
          (sent (joinStream_request "http://localhost:8123" JSON_stringify_plain
                                    "thread-1" "run-1" None) world0))).
Proof.
  apply (rejected_read_ends_stream "http://localhost:8123"
           (backend_streaming
              [ReadValue (unlines ["data: 1"; ""]);
               ReadRejects (mkExn "TypeError" "network error");
               ReadValue (unlines ["data: 2"; ""])])
           JSON_parse_atoms JSON_stringify_plain "thread-1" "run-1" None world0
           (mkResponse 200 "OK"
              (Some [ReadValue (unlines ["data: 1"; ""]);
                     ReadRejects (mkExn "TypeError" "network error");
                     ReadValue (unlines ["data: 2"; ""])]))
           [unlines ["data: 1"; ""]]
           (mkExn "TypeError" "network error")
           [ReadValue (unlines ["data: 2"; ""])]);
    reflexivity.
Defined.

Lemma fetch_and_body_failures_surface_witness :
  fst (getState "http://localhost:8123"
                (fun _ => Throw (mkExn "TypeError" "fetch failed"))
                JSON_parse_atoms "t1" world0)
  = Throw (mkExn "TypeError" "fetch failed")
  /\ fst (getHistory "http://localhost:8123"
                     (backend_streaming [ReadValue "<ht"; ReadValue "ml>"])
                     JSON_parse_atoms safe_integer safe_integer_toString safe_100
                     "t1" None world0)
     = Throw (mkExn "SyntaxError" "Unexpected token")
  /\ fst (list_ "http://localhost:8123"
                (backend_streaming
                   [ReadValue "["; ReadRejects (mkExn "TypeError" "terminated")])
                JSON_parse_atoms "t1" world0)
     = Throw (mkExn "TypeError" "terminated").
Proof.
  split; [|split].
  - destruct (fetch_and_body_failures_surface "http://localhost:8123"
                (fun _ => Throw (mkExn "TypeError" "fetch failed"))
                JSON_parse_atoms safe_integer safe_integer_toString safe_100
                "t1" None world0
                (mkExn "TypeError" "fetch failed")) as (_ & H & _).
    apply H. reflexivity.
  - destruct (fetch_and_body_failures_surface "http://localhost:8123"
                (backend_streaming [ReadValue "<ht"; ReadValue "ml>"])
                JSON_parse_atoms safe_integer safe_integer_toString safe_100
                "t1" None world0
                (mkExn "SyntaxError" "Unexpected token")) as (_ & _ & _ & H).
    destruct (H (mkResponse 200 "OK" (Some [ReadValue "<ht"; ReadValue "ml>"]))
                eq_refl) as (G & _).
    + left. exists ["<ht"; "ml>"]. split; reflexivity.
    + apply G. reflexivity.
  - destruct (fetch_and_body_failures_surface "http://localhost:8123"
                (backend_streaming
                   [ReadValue "["; ReadRejects (mkExn "TypeError" "terminated")])
                JSON_parse_atoms safe_integer safe_integer_toString safe_100
                "t1" None world0
                (mkExn "TypeError" "terminated")) as (_ & _ & _ & H).
    destruct (H (mkResponse 200 "OK"
                   (Some [ReadValue "[";
                          ReadRejects (mkExn "TypeError" "terminated")]))
                eq_refl) as (_ & _ & G).
    + right. exists ["["], []. reflexivity.
    + apply G. reflexivity.
Defined.

Lemma distinct_threads_distinct_requests_witness :
  getState_request "http://localhost:8123" "a/b"
  <> getState_request "http://localhost:8123" "a%2Fb".
Proof.
  destruct (distinct_threads_distinct_requests "http://localhost:8123"
              safe_integer safe_integer_toString safe_100
              "a/b" "a%2Fb") as (H & _).
  - discriminate.
  - exact H.
Defined.

Lemma join_request_identifies_run_and_thread_witness :
  joinStream_request "http://localhost:8123" JSON_stringify_plain "t" "r/join?thread_id=x" None
  <> joinStream_request "http://localhost:8123" JSON_stringify_plain "x/join?thread_id=t" "r" None.
Proof.
  apply (join_request_identifies_run_and_thread "http://localhost:8123"
           JSON_stringify_plain).
  discriminate.
Defined.

Lemma getHistory_sends_one_GET_witness :
  requests (snd (getHistory "http://localhost:8123/" (backend_status 200 "OK")
                            JSON_parse_atoms
                            safe_integer safe_integer_toString safe_100
                            "thread 1"
                            (Some (mkHistoryOptions (Some (mkSafe 25 eq_refl))))
                            world0))
  = [GET "http://localhost:8123/threads/thread%201/history?limit=25"]
  /\ requests (snd (getHistory "http://localhost:8123/" (backend_status 200 "OK")
                               JSON_parse_atoms
                               safe_integer safe_integer_toString safe_100
                               "thread 1" (Some (mkHistoryOptions None)) world0))
     = [GET "http://localhost:8123/threads/thread%201/history?limit=100"].
Proof.
  split.
  - destruct (getHistory_sends_one_GET "http://localhost:8123/"
                (backend_status 200 "OK") JSON_parse_atoms
                safe_integer safe_integer_toString safe_100 eq_refl
                "thread 1" (Some (mkHistoryOptions (Some (mkSafe 25 eq_refl))))
                world0) as [E _].
    exact E.
  - destruct (getHistory_sends_one_GET "http://localhost:8123/"
                (backend_status 200 "OK") JSON_parse_atoms
                safe_integer safe_integer_toString safe_100 eq_refl
                "thread 1" (Some (mkHistoryOptions None)) world0) as [E _].
    exact E.
Defined.
